(** * The WebSocket connection manager of [useWebSocket.ts]

    A shallow embedding of the React hook [useWebSocket]
    (src/components/useWebSocket.ts) together with the small part of the
    host it talks to: the sockets it constructs, the one-shot timers it
    arms, the console, and [JSON.parse].

    The hook keeps its state in refs and one [useState] cell; its
    callbacks run one at a time on the event loop.  A callback is
    modelled as a computation in a state-and-exception monad over the
    [World]; the event loop as a function that delivers one [Event]. *)

From Stdlib Require Import ZArith Ascii String.
From Stdlib Require DecimalString DecimalZ DecimalFacts DecimalPos.
From stdpp Require Import base option list gmap strings.

Local Open Scope Z_scope.
Local Open Scope char_scope.
Local Open Scope list_scope.

(** ** JSON values and [JSON.parse] *)

(** A parsed JSON text.  Numbers keep their literal: the hook never
    computes with a received number.  An object keeps its members in
    source order; reading a key takes the last member of that name, as
    [JSON.parse] keeps the last of duplicated keys. *)
#[local] Set Warnings "-register-all".

Inductive JSON : Type :=
  | JNull
  | JBool (b : bool)
  | JNumber (literal : string)
  | JString (s : string)
  | JArray (elements : list JSON)
  | JObject (members : list (string * JSON)).

Module Json.

Definition is_ws (c : ascii) : bool :=
  match c with
  | " " | "009" | "010" | "013" => true
  | _ => false
  end.

Fixpoint skip_ws (cs : list ascii) : list ascii :=
  match cs with
  | c :: r => if is_ws c then skip_ws r else cs
  | [] => []
  end.

Definition is_digit (c : ascii) : bool :=
  let n := nat_of_ascii c in (48 <=? n)%nat && (n <=? 57)%nat.

(** Splits off the longest prefix of digits. *)
Fixpoint digits (cs : list ascii) : list ascii * list ascii :=
  match cs with
  | c :: r =>
      if is_digit c then let '(d, r') := digits r in (c :: d, r')
      else ([], cs)
  | [] => ([], [])
  end.

(** int: a single 0, or a digit 1-9 followed by digits. *)
Definition int_part (cs : list ascii) : option (list ascii * list ascii) :=
  match cs with
  | "0" :: r => Some (["0"], r)
  | c :: r => if is_digit c then let '(d, r') := digits r in Some (c :: d, r')
              else None
  | [] => None
  end.

(** frac: optional, a dot followed by at least one digit. *)
Definition frac_part (cs : list ascii) : option (list ascii * list ascii) :=
  match cs with
  | "." :: r =>
      match digits r with
      | ([], _) => None
      | (d, r') => Some ("." :: d, r')
      end
  | _ => Some ([], cs)
  end.

(** exp: optional, e or E, an optional sign, at least one digit. *)
Definition exp_part (cs : list ascii) : option (list ascii * list ascii) :=
  let after (e : ascii) (r : list ascii) :=
    let '(sign, r1) :=
      match r with
      | "+" :: r1 => (["+"], r1)
      | "-" :: r1 => (["-"], r1)
      | _ => ([], r)
      end in
    match digits r1 with
    | ([], _) => None
    | (d, r') => Some (e :: sign ++ d, r')
    end in
  match cs with
  | "e" :: r => after "e" r
  | "E" :: r => after "E" r
  | _ => Some ([], cs)
  end.

Definition number (cs : list ascii) : option (string * list ascii) :=
  let '(sign, r0) :=
    match cs with
    | "-" :: r0 => (["-"], r0)
    | _ => ([], cs)
    end in
  '(i, r1) ← int_part r0;
  '(f, r2) ← frac_part r1;
  '(e, r3) ← exp_part r2;
  Some (string_of_list_ascii (sign ++ i ++ f ++ e), r3).

Definition hex_digit (c : ascii) : option nat :=
  let n := nat_of_ascii c in
  if (48 <=? n)%nat && (n <=? 57)%nat then Some (n - 48)%nat
  else if (65 <=? n)%nat && (n <=? 70)%nat then Some (n - 55)%nat
  else if (97 <=? n)%nat && (n <=? 102)%nat then Some (n - 87)%nat
  else None.

(** The code unit of a [\uXXXX] escape, written out as UTF-8 bytes
    (a surrogate is written as the three bytes of its own value). *)
Definition utf8 (n : nat) : list ascii :=
  if (n <? 128)%nat then [ascii_of_nat n]
  else if (n <? 2048)%nat then
    [ascii_of_nat (192 + n / 64); ascii_of_nat (128 + n mod 64)]
  else
    [ascii_of_nat (224 + n / 4096);
     ascii_of_nat (128 + (n / 64) mod 64);
     ascii_of_nat (128 + n mod 64)].

(** The characters of a string literal after its opening quote, up to
    and including the closing quote.  A raw control character ends
    the parse with an error, as does an unknown escape. *)
Fixpoint string_body (cs : list ascii) : option (list ascii * list ascii) :=
  match cs with
  | [] => None
  | "034" :: r => Some ([], r)
  | "\" :: "u" :: a :: b :: c :: d :: r =>
      ha ← hex_digit a; hb ← hex_digit b; hc ← hex_digit c; hd ← hex_digit d;
      '(s, r') ← string_body r;
      Some (utf8 (ha * 4096 + hb * 256 + hc * 16 + hd)%nat ++ s, r')
  | "\" :: e :: r =>
      ch ← match e with
           | "034" => Some "034"
           | "\" => Some "\"
           | "/" => Some "/"
           | "b" => Some "008"
           | "f" => Some "012"
           | "n" => Some "010"
           | "r" => Some "013"
           | "t" => Some "009"
           | _ => None
           end;
      '(s, r') ← string_body r;
      Some (ch :: s, r')
  | c :: r =>
      if (nat_of_ascii c <? 32)%nat then None
      else '(s, r') ← string_body r; Some (c :: s, r')
  end.

(** Recursive descent over the grammar of ECMA-404.  [fuel] bounds the
    nesting of calls: an array or object costs two units and has two
    brackets, a further element or member costs one unit and has a
    comma, so the length of the text (plus one) is enough. *)
Fixpoint value (fuel : nat) (cs : list ascii) : option (JSON * list ascii) :=
  match fuel with
  | O => None
  | S fuel =>
      match skip_ws cs with
      | "n" :: "u" :: "l" :: "l" :: r => Some (JNull, r)
      | "t" :: "r" :: "u" :: "e" :: r => Some (JBool true, r)
      | "f" :: "a" :: "l" :: "s" :: "e" :: r => Some (JBool false, r)
      | "034" :: r =>
          '(s, r') ← string_body r;
          Some (JString (string_of_list_ascii s), r')
      | "[" :: r =>
          match skip_ws r with
          | "]" :: r' => Some (JArray [], r')
          | _ => elements fuel r []
          end
      | "{" :: r =>
          match skip_ws r with
          | "}" :: r' => Some (JObject [], r')
          | _ => members fuel r []
          end
      | c :: r =>
          if is_digit c || bool_decide (c = "-") then
            '(n, r') ← number (c :: r); Some (JNumber n, r')
          else None
      | [] => None
      end
  end
with elements (fuel : nat) (cs : list ascii) (acc : list JSON)
  : option (JSON * list ascii) :=
  match fuel with
  | O => None
  | S fuel =>
      '(v, r) ← value fuel cs;
      match skip_ws r with
      | "," :: r' => elements fuel r' (v :: acc)
      | "]" :: r' => Some (JArray (rev (v :: acc)), r')
      | _ => None
      end
  end
with members (fuel : nat) (cs : list ascii) (acc : list (string * JSON))
  : option (JSON * list ascii) :=
  match fuel with
  | O => None
  | S fuel =>
      match skip_ws cs with
      | "034" :: r =>
          '(k, r1) ← string_body r;
          match skip_ws r1 with
          | ":" :: r2 =>
              '(v, r3) ← value fuel r2;
              let acc' := (string_of_list_ascii k, v) :: acc in
              match skip_ws r3 with
              | "," :: r4 => members fuel r4 acc'
              | "}" :: r4 => Some (JObject (rev acc'), r4)
              | _ => None
              end
          | _ => None
          end
      | _ => None
      end
  end.

(** [JSON.parse text]: one value, white space around it, nothing
    else.  [None] stands for the SyntaxError that [JSON.parse]
    throws. *)
Definition parse (text : string) : option JSON :=
  let cs := list_ascii_of_string text in
  '(v, r) ← value (S (length cs)) cs;
  match skip_ws r with
  | [] => Some v
  | _ => None
  end.

(** [o[k]] on a parsed object. *)
Definition get (k : string) (o : list (string * JSON)) : option JSON :=
  snd <$> last (filter (λ kv, fst kv = k) o).

End Json.

(** [quoted s] is [s] between double quotes, for writing JSON texts. *)
Definition quoted (s : string) : string :=
  String "034" (s ++ String "034" EmptyString)%string.

(** ** The message type of [types.ts]

    [WebSocketMessage] is a TypeScript union; it exists at compile time
    only.  The predicates below say when a parsed value inhabits it
    (structurally: further members are allowed). *)
Module Types.

Definition is_number (v : JSON) : bool :=
  match v with JNumber _ => true | _ => false end.

Definition is_string (v : JSON) : bool :=
  match v with JString _ => true | _ => false end.

Definition field (p : JSON → bool) (k : string) (o : list (string * JSON)) : bool :=
  match Json.get k o with Some v => p v | None => false end.

Definition array_of (p : JSON → bool) (v : JSON) : bool :=
  match v with JArray l => forallb p l | _ => false end.

(** [interface Item { id: number; name: string }] *)
Definition is_Item (v : JSON) : bool :=
  match v with
  | JObject o => field is_number "id" o && field is_string "name" o
  | _ => false
  end.

(** [interface Section { id: number; title: string; items: Item[] }] *)
Definition is_Section (v : JSON) : bool :=
  match v with
  | JObject o =>
      field is_number "id" o && field is_string "title" o
      && field (array_of is_Item) "items" o
  | _ => false
  end.

(** [interface Position { x: number; y: number }] *)
Definition is_Position (v : JSON) : bool :=
  match v with
  | JObject o => field is_number "x" o && field is_number "y" o
  | _ => false
  end.

(** [interface AppState { sections; items; lastUpdated: number }] *)
Definition is_AppState (v : JSON) : bool :=
  match v with
  | JObject o =>
      field (array_of is_Section) "sections" o
      && field (array_of is_Item) "items" o
      && field is_number "lastUpdated" o
  | _ => false
  end.

(** [type WebSocketMessage], the union tagged by [type]. *)
Definition is_WebSocketMessage (v : JSON) : bool :=
  match v with
  | JObject o =>
      match Json.get "type" o with
      | Some (JString "DRAG_UPDATE") =>
          field is_Item "item" o && field is_Position "position" o
      | Some (JString "DROP_UPDATE") =>
          field (array_of is_Section) "sections" o
          && field (array_of is_Item) "items" o
      | Some (JString "DRAG_END") => true
      | Some (JString "INIT_STATE") => field is_AppState "state" o
      | _ => false
      end
  | _ => false
  end.

End Types.

(** The scenario of the specification: the snapshot the server sends
    after the socket opened. *)
Definition init_state_text : string :=
  ("{" ++ quoted "type" ++ ":" ++ quoted "INIT_STATE" ++ ","
   ++ quoted "state" ++ ":{" ++ quoted "sections" ++ ":[],"
   ++ quoted "items" ++ ":[{" ++ quoted "id" ++ ":1,"
   ++ quoted "name" ++ ":" ++ quoted "A" ++ "}],"
   ++ quoted "lastUpdated" ++ ":0}}")%string.

Definition init_state_value : JSON :=
  JObject [("type", JString "INIT_STATE");
           ("state", JObject [("sections", JArray []);
                              ("items", JArray [JObject [("id", JNumber "1");
                                                         ("name", JString "A")]]);
                              ("lastUpdated", JNumber "0")])]%string.

(** ** The host: sockets, timers, console *)

(** [WebSocket.readyState]: CONNECTING = 0, OPEN = 1, CLOSING = 2,
    CLOSED = 3. *)
Inductive ReadyState : Type := CONNECTING | OPEN | CLOSING | CLOSED.

Global Instance ReadyState_eq_dec : EqDecision ReadyState.
Proof. solve_decision. Defined.

Inductive Level : Type := log | error | warn.

(** What a callback does to the outside, in the order it does it.
    Sockets are named by their order of construction, timers by the
    handle [setTimeout] returned, the caller's handlers by a number. *)
Inductive Effect : Type :=
  | Console (l : Level) (text : string)
  | Constructed (s : nat) (url : string)
  | CloseCalled (s : nat) (code : Z) (reason : string)
  | Sent (s : nat) (message : JSON)
  | TimerSet (t : nat) (delay : Z)
  | TimerCleared (t : nat)
  | MessageHandlerCalled (h : nat) (data : JSON)
  | ErrorHandlerCalled (h : nat).

Inductive Exn : Type :=
  | SyntaxError      (* JSON.parse, or a URL the constructor rejects *)
  | SecurityError    (* the constructor, on a blocked URL *)
  | CallerError.     (* thrown by a handler of the caller *)

(** The state of one hook instance: the [useState] cell and the refs. *)
Record Hook : Type := mkHook {
  isConnected : bool;
  wsRef : option nat;
  reconnectTimeoutRef : option nat;
  reconnectAttemptsRef : nat;
  messageHandlerRef : nat;
  errorHandlerRef : option nat
}.

(** The hook and what it owns in the host.  [sockets] holds the
    [readyState] of every socket the hook constructed (socket [s] is the
    [s]-th); each of them carries the four reactions that [connect]
    assigns right after the construction.  [timers] holds the pending
    timeouts with their delay; each of them carries the one callback
    that [onclose] passes to [setTimeout].  [trace] is newest first. *)
Record World : Type := mkWorld {
  hook : Hook;
  sockets : list ReadyState;
  timers : gmap nat Z;
  next_timer : nat;
  trace : list Effect
}.

Definition with_hook (f : Hook → Hook) (w : World) : World :=
  mkWorld (f (hook w)) (sockets w) (timers w) (next_timer w) (trace w).

Definition set_isConnected (b : bool) (h : Hook) : Hook :=
  mkHook b (wsRef h) (reconnectTimeoutRef h) (reconnectAttemptsRef h)
         (messageHandlerRef h) (errorHandlerRef h).

Definition set_wsRef (s : option nat) (h : Hook) : Hook :=
  mkHook (isConnected h) s (reconnectTimeoutRef h) (reconnectAttemptsRef h)
         (messageHandlerRef h) (errorHandlerRef h).

Definition set_reconnectTimeoutRef (t : option nat) (h : Hook) : Hook :=
  mkHook (isConnected h) (wsRef h) t (reconnectAttemptsRef h)
         (messageHandlerRef h) (errorHandlerRef h).

Definition set_reconnectAttemptsRef (n : nat) (h : Hook) : Hook :=
  mkHook (isConnected h) (wsRef h) (reconnectTimeoutRef h) n
         (messageHandlerRef h) (errorHandlerRef h).

Definition set_handlerRefs (onMessage : nat) (onError : option nat) (h : Hook) : Hook :=
  mkHook (isConnected h) (wsRef h) (reconnectTimeoutRef h) (reconnectAttemptsRef h)
         onMessage onError.

(** *** Callbacks as computations *)

Inductive Outcome (A : Type) : Type :=
  | Returns (a : A)
  | Throws (e : Exn).
Global Arguments Returns {A} a.
Global Arguments Throws {A} e.

(** A callback: it changes the world and returns or throws.  What it
    wrote before throwing stays written. *)
Definition JS (A : Type) : Type := World → Outcome A * World.

Global Instance JS_ret : MRet JS := λ A a w, (Returns a, w).

Global Instance JS_bind : MBind JS := λ A B f m w,
  match m w with
  | (Returns a, w') => f a w'
  | (Throws e, w') => (Throws e, w')
  end.

Definition throw {A : Type} (e : Exn) : JS A := λ w, (Throws e, w).

(** [try { body } catch (e) { handler }] *)
Definition try_catch {A : Type} (body : JS A) (handler : Exn → JS A) : JS A := λ w,
  match body w with
  | (Throws e, w') => handler e w'
  | r => r
  end.

Definition read {A : Type} (f : Hook → A) : JS A := λ w, (Returns (f (hook w)), w).

Definition write (f : Hook → Hook) : JS unit := λ w, (Returns (), with_hook f w).

Definition emit (e : Effect) : JS unit := λ w,
  (Returns (), mkWorld (hook w) (sockets w) (timers w) (next_timer w) (e :: trace w)).

Definition console (l : Level) (text : string) : JS unit := emit (Console l text).

(** *** Sockets *)

(** [ws?.readyState] *)
Definition readyState (s : option nat) : JS (option ReadyState) := λ w,
  (Returns (s ≫= λ i, sockets w !! i), w).

(** [ws.close(code, reason)]: starts the closing handshake of a socket
    that is connecting or open, and does nothing to one that is closing
    or closed.  The close event comes later, from the transport. *)
Definition closing (r : ReadyState) : ReadyState :=
  match r with
  | CONNECTING | OPEN => CLOSING
  | CLOSING | CLOSED => r
  end.

Definition ws_close (s : nat) (code : Z) (reason : string) : JS unit := λ w,
  (Returns (), mkWorld (hook w) (alter closing s (sockets w)) (timers w)
                       (next_timer w) (CloseCalled s code reason :: trace w)).

(** [ws.send(JSON.stringify(message))] *)
Definition ws_send (s : nat) (message : JSON) : JS unit := emit (Sent s message).

(** *** Timers *)

(** [setTimeout(callback, delay)]: a fresh handle.  Handles are greater
    than zero, so every handle is truthy. *)
Definition setTimeout (delay : Z) : JS nat := λ w,
  let t := next_timer w in
  (Returns t, mkWorld (hook w) (sockets w) (<[t := delay]> (timers w)) (S t)
                      (TimerSet t delay :: trace w)).

(** [clearTimeout(t)] *)
Definition clearTimeout (t : nat) : JS unit := λ w,
  (Returns (), mkWorld (hook w) (sockets w) (delete t (timers w)) (next_timer w)
                       (TimerCleared t :: trace w)).

(** [JSON.parse(text)] *)
Definition JSON_parse (text : string) : JS JSON :=
  match Json.parse text with
  | Some v => mret v
  | None => throw SyntaxError
  end.

(** A data frame as the message event carries it: [event.data] is a
    string for a text frame and a Blob for a binary one. *)
Inductive Frame : Type :=
  | Text (data : string)
  | Binary (bytes : list ascii).

(** [JSON.parse] converts its argument to a string first. *)
Definition to_string (f : Frame) : string :=
  match f with
  | Text data => data
  | Binary _ => "[object Blob]"
  end.

(** ** The hook *)

Section UseWebSocket.

(** The [url] prop, and what the host and the caller decide: whether
    [new WebSocket(url)] throws, and whether the caller's handlers
    throw when called. *)
Variable url : string.
Variable WebSocket_rejects : string → option Exn.
Variable onMessage_throws : nat → JSON → bool.
Variable onError_throws : nat → bool.

Definition maxReconnectAttempts : nat := 5.

(** [new WebSocket(url)] *)
Definition new_WebSocket : JS nat := λ w,
  match WebSocket_rejects url with
  | Some e => (Throws e, w)
  | None =>
      let s := length (sockets w) in
      (Returns s, mkWorld (hook w) (sockets w ++ [CONNECTING]) (timers w)
                          (next_timer w) (Constructed s url :: trace w))
  end.

(** [messageHandlerRef.current(data)] *)
Definition call_messageHandler (data : JSON) : JS unit :=
  h ← read messageHandlerRef;
  emit (MessageHandlerCalled h data);;
  if onMessage_throws h data then throw CallerError else mret ().

(** [errorHandlerRef.current?.(error)] *)
Definition call_errorHandler : JS unit :=
  h ← read errorHandlerRef;
  match h with
  | Some h =>
      emit (ErrorHandlerCalled h);;
      if onError_throws h then throw CallerError else mret ()
  | None => mret ()
  end.

Definition setIsConnected (b : bool) : JS unit := write (set_isConnected b).

(** The effect on [onMessage, onError]: it runs when the caller passes
    new handlers, and does nothing else. *)
Definition update_handlers (onMessage : nat) (onError : option nat) : JS unit :=
  write (set_handlerRefs onMessage onError).

(** [cleanup], lines 31-40. *)
Definition cleanup : JS unit :=
  t ← read reconnectTimeoutRef;
  match t with
  | Some t => clearTimeout t;; write (set_reconnectTimeoutRef None)
  | None => mret ()
  end;;
  s ← read wsRef;
  match s with
  | Some s => ws_close s 1000 "Component unmounting";; write (set_wsRef None)
  | None => mret ()
  end.

(** [connect], lines 42-109.  The four reactions it assigns to the
    new socket are [onopen], [onmessage], [onerror] and [onclose]
    below; the assignments cannot throw. *)
Definition connect : JS unit :=
  s ← read wsRef;
  r ← readyState s;
  if bool_decide (r = Some OPEN) || bool_decide (r = Some CONNECTING) then mret ()
  else
    n ← read reconnectAttemptsRef;
    if bool_decide (maxReconnectAttempts ≤ n)%nat then
      console log "Max reconnection attempts reached"
    else
      try_catch
        (ws ← new_WebSocket;
         write (set_wsRef (Some ws)))
        (λ _, console error "WebSocket Connection Error:").

(** [ws.onopen], lines 60-64. *)
Definition onopen : JS unit :=
  console log "WebSocket Connected";;
  setIsConnected true;;
  write (set_reconnectAttemptsRef 0).

(** [ws.onmessage], lines 66-73. *)
Definition onmessage (f : Frame) : JS unit :=
  try_catch
    (data ← JSON_parse (to_string f);
     call_messageHandler data)
    (λ _, console error "Failed to parse message:").

(** [ws.onerror], lines 75-78. *)
Definition onerror : JS unit :=
  console error "WebSocket Error:";;
  call_errorHandler.

(** The callback of the reconnect timer, lines 96-99. *)
Definition on_timeout : JS unit :=
  n ← read reconnectAttemptsRef;
  write (set_reconnectAttemptsRef (n + 1));;
  connect.

(** [Math.min(1000 * Math.pow(2, n), 10000)].  The numbers are
    integers that a double holds exactly, or so large that the
    minimum is 10000 either way. *)
Definition backoff (n : nat) : Z := Z.min (1000 * 2 ^ Z.of_nat n) 10000.

(** [ws.onclose], lines 80-105. *)
Definition onclose (code : Z) : JS unit :=
  if bool_decide (code ≠ 1000) then
    console log "WebSocket Closed unexpectedly:";;
    setIsConnected false;;
    write (set_wsRef None);;
    n ← read reconnectAttemptsRef;
    t ← setTimeout (backoff n);
    write (set_reconnectTimeoutRef (Some t))
  else
    console log "WebSocket Closed normally:";;
    setIsConnected false;;
    write (set_wsRef None).

(** [sendMessage], lines 118-124. *)
Definition sendMessage (message : JSON) : JS unit :=
  s ← read wsRef;
  r ← readyState s;
  match s, r with
  | Some s, Some OPEN => ws_send s message
  | _, _ => console warn "WebSocket is not connected"
  end.

(** [reconnect], lines 126-130. *)
Definition reconnect : JS unit :=
  cleanup;;
  write (set_reconnectAttemptsRef 0);;
  connect.

(** *** The event loop *)

(** What can happen to a mounted hook: the caller calls one of the
    functions it was given or renders with new handlers, the
    transport delivers an event of a socket, a timer fires. *)
Inductive Event : Type :=
  | Connect                     (* the mount effect *)
  | Cleanup                     (* its teardown *)
  | Reconnect
  | SendMessage (message : JSON)
  | Render (onMessage : nat) (onError : option nat)
  | Open (s : nat)
  | Message (s : nat) (f : Frame)
  | Error (s : nat)
  | Close (s : nat) (code : Z)
  | Timeout (t : nat).

(** The transport sets [readyState] before it fires the event. *)
Definition transport (s : nat) (r : ReadyState) : JS unit := λ w,
  (Returns (), mkWorld (hook w) (<[s := r]> (sockets w)) (timers w)
                       (next_timer w) (trace w)).

(** A timer fires once. *)
Definition expire (t : nat) : JS unit := λ w,
  (Returns (), mkWorld (hook w) (sockets w) (delete t (timers w))
                       (next_timer w) (trace w)).

(** An event of a socket reaches the reaction that [connect] assigned
    to that socket; there is none to reach for a socket that was never
    constructed, nor for a timer that is not pending. *)
Definition deliver (e : Event) : JS unit := λ w,
  match e with
  | Connect => connect w
  | Cleanup => cleanup w
  | Reconnect => reconnect w
  | SendMessage m => sendMessage m w
  | Render h h' => update_handlers h h' w
  | Open s =>
      if bool_decide (is_Some (sockets w !! s)) then (transport s OPEN;; onopen) w
      else (Returns (), w)
  | Message s f =>
      if bool_decide (is_Some (sockets w !! s)) then onmessage f w
      else (Returns (), w)
  | Error s =>
      if bool_decide (is_Some (sockets w !! s)) then onerror w
      else (Returns (), w)
  | Close s code =>
      if bool_decide (is_Some (sockets w !! s)) then (transport s CLOSED;; onclose code) w
      else (Returns (), w)
  | Timeout t =>
      if bool_decide (is_Some (timers w !! t)) then (expire t;; on_timeout) w
      else (Returns (), w)
  end.

(** An exception that leaves a callback is reported by the host; the
    loop goes on with the world as the callback left it. *)
Definition step (w : World) (e : Event) : World := snd (deliver e w).

Definition run (es : list Event) (w : World) : World := foldl step w es.

(** When the transport can deliver an event: [open] once, to a
    connecting socket; data to an open one (or one whose closing
    handshake is still under way); [close] once. *)
Definition deliverable (w : World) (e : Event) : bool :=
  match e with
  | Open s => bool_decide (sockets w !! s = Some CONNECTING)
  | Message s _ =>
      bool_decide (sockets w !! s = Some OPEN)
      || bool_decide (sockets w !! s = Some CLOSING)
  | Error s | Close s _ =>
      bool_decide (is_Some (sockets w !! s))
      && negb (bool_decide (sockets w !! s = Some CLOSED))
  | Timeout t => bool_decide (is_Some (timers w !! t))
  | _ => true
  end.

Fixpoint deliverable_run (w : World) (es : list Event) : bool :=
  match es with
  | [] => true
  | e :: es => deliverable w e && deliverable_run (step w e) es
  end.

(** *** Classifying events *)

(** The events that write zero to the attempt counter: an open event
    of a socket of the hook, and a call of [reconnect]. *)
Definition resets (w : World) (e : Event) : bool :=
  match e with
  | Reconnect => true
  | Open s => bool_decide (is_Some (sockets w !! s))
  | _ => false
  end.

(** A pending reconnect timer fires. *)
Definition fires (w : World) (e : Event) : bool :=
  match e with
  | Timeout t => bool_decide (is_Some (timers w !! t))
  | _ => false
  end.

(** No event of the run resets the counter. *)
Fixpoint no_reset (w : World) (es : list Event) : bool :=
  match es with
  | [] => true
  | e :: es => negb (resets w e) && no_reset (step w e) es
  end.

(** How many reconnect timers fire in the run. *)
Fixpoint fired (w : World) (es : list Event) : nat :=
  match es with
  | [] => 0
  | e :: es => ((if fires w e then 1 else 0) + fired (step w e) es)%nat
  end.


End UseWebSocket.

(** The hook as first rendered: [useState(false)], empty refs,
    [useRef(0)], the handlers of the first render. *)
Definition mount (onMessage : nat) (onError : option nat) : World :=
  mkWorld (mkHook false None None 0 onMessage onError) [] ∅ 1 [].

(** The sockets that are connecting or open. *)
Definition live (r : ReadyState) : bool :=
  match r with
  | CONNECTING | OPEN => true
  | CLOSING | CLOSED => false
  end.

Definition live_sockets (w : World) : nat := length (filter (λ r, live r = true) (sockets w)).

(** ** Reading a trace *)

(** The delays of the timers a trace armed, oldest first. *)
Definition delays (tr : list Effect) : list Z :=
  rev (omap (λ e, match e with TimerSet _ d => Some d | _ => None end) tr).

(** The calls of the caller's message handler in a trace, oldest
    first: which handler, with which value. *)
Definition calls (tr : list Effect) : list (nat * JSON) :=
  rev (omap (λ e, match e with MessageHandlerCalled h v => Some (h, v) | _ => None end) tr).

(** The sockets a trace constructed, oldest first. *)
Definition constructions (tr : list Effect) : list nat :=
  rev (omap (λ e, match e with Constructed s _ => Some s | _ => None end) tr).

(** Whether a frame holds a [WebSocketMessage]: its text parses, and
    the value is in the union. *)
Definition parses_as_message (f : Frame) : bool :=
  match Json.parse (to_string f) with
  | Some v => Types.is_WebSocketMessage v
  | None => false
  end.

(** [w] with one more line on the console. *)
Definition logged (l : Level) (text : string) (w : World) : World :=
  mkWorld (hook w) (sockets w) (timers w) (next_timer w) (Console l text :: trace w).

(** Every socket of the hook that is connecting or open is the one in
    [wsRef]. *)
Definition owned (w : World) : Prop :=
  ∀ s r, sockets w !! s = Some r → live r = true → wsRef (hook w) = Some s.

(** ** Sample worlds *)

(** A host whose constructor accepts the URL, and handlers that
    return. *)
Definition board_url : string := "ws://localhost:8080/ws".
Definition accepts : string → option Exn := λ _, None.
Definition rejects : string → option Exn := λ _, Some SyntaxError.
Definition onMessage_returns : nat → JSON → bool := λ _ _, false.
Definition onError_returns : nat → bool := λ _, false.

Definition board_step : World → Event → World :=
  step board_url accepts onMessage_returns onError_returns.
Definition board_run : list Event → World → World :=
  run board_url accepts onMessage_returns onError_returns.

(** The hook mounted with message handler 7, its first socket
    connecting, then open. *)
Definition connecting : World := board_run [Connect] (mount 7 None).
Definition connected : World := board_run [Connect; Open 0] (mount 7 None).

(** [reconnect] on an open connection, then the close event of the
    socket it closed. *)
Definition reconnected : World := board_run [Reconnect] connected.
Definition after_late_close : World := board_run [Close 0 1000] reconnected.

(** A well-formed JSON text that is no [WebSocketMessage]. *)
Definition ping_text : string := ("{" ++ quoted "type" ++ ":" ++ quoted "PING" ++ "}")%string.
Definition ping_value : JSON := JObject [("type", JString "PING")]%string.

(** Two sockets in a row closed abnormally before any timer fired. *)
Definition two_timers : World :=
  board_run [Connect; Reconnect; Close 0 1006; Close 1 1006] (mount 7 None).

(** ** Invariants of the hook *)

(** The refs point at things that exist: [wsRef] at a constructed
    socket, [reconnectTimeoutRef] at a handle that [setTimeout] gave
    out; handles are positive, so the truthiness test in [cleanup] sees
    every one of them. *)
Definition well_formed (w : World) : Prop :=
  (∀ s, wsRef (hook w) = Some s → (s < length (sockets w))%nat)
  ∧ (∀ t, is_Some (timers w !! t) → (0 < t < next_timer w)%nat)
  ∧ (∀ t, reconnectTimeoutRef (hook w) = Some t → (0 < t < next_timer w)%nat)
  ∧ (0 < next_timer w)%nat.

(** Some socket of the hook is open, or closing after it was open or
    connecting. *)
Definition some_socket_up (w : World) : Prop :=
  ∃ s, sockets w !! s = Some OPEN ∨ sockets w !! s = Some CLOSING.

(** A close event of a socket other than the one in [wsRef], while the
    one in [wsRef] is connecting or open. *)
Definition stale (w : World) (e : Event) : bool :=
  match e with
  | Close s _ =>
      match wsRef (hook w) with
      | Some s' => bool_decide (s' ≠ s) && from_option live false (sockets w !! s')
      | None => false
      end
  | _ => false
  end.

Section Runs.

Variable url : string.
Variable WebSocket_rejects : string → option Exn.
Variable onMessage_throws : nat → JSON → bool.
Variable onError_throws : nat → bool.

(** A run the transport can produce in which no close event is
    stale. *)
Fixpoint orderly (w : World) (es : list Event) : bool :=
  match es with
  | [] => true
  | e :: es =>
      deliverable w e && negb (stale w e)
      && orderly (step url WebSocket_rejects onMessage_throws onError_throws w e) es
  end.

End Runs.

(** ** The dashboard of [DragDropDashboard.tsx]

    The component keeps the board in [useState] cells and hands every
    change to [sendMessage].  A handler is modelled as a function from
    the state of the render it was created in to the state after its
    updates, together with the messages it passed to [sendMessage], in
    order.  Ids and pointer coordinates are integers. *)
Module Dashboard.

(** [interface Item], [interface Section], [interface Position],
    [interface AppState] of [types.ts]. *)
Record Item : Type := mkItem {
  item_id : Z;
  item_name : string
}.

Record Section : Type := mkSection {
  section_id : Z;
  section_title : string;
  section_items : list Item
}.

Record Position : Type := mkPosition {
  pos_x : Z;
  pos_y : Z
}.

Record AppState : Type := mkAppState {
  state_sections : list Section;
  state_items : list Item;
  lastUpdated : Z
}.

(** [type WebSocketMessage] *)
Inductive WebSocketMessage : Type :=
  | DRAG_UPDATE (item : Item) (position : Position)
  | DROP_UPDATE (sections : list Section) (items : list Item)
  | DRAG_END
  | INIT_STATE (state : AppState).

(** ["items" | "section"] *)
Inductive DragSource : Type := from_items | from_section.

Global Instance Item_eq_dec : EqDecision Item.
Proof. solve_decision. Defined.

Global Instance DragSource_eq_dec : EqDecision DragSource.
Proof. solve_decision. Defined.

(** The [useState] cells of the component. *)
Record State : Type := mkState {
  sections : list Section;
  items : list Item;
  draggedItem : option Item;
  isDragging : bool;
  dragPosition : Position;
  dragSource : option DragSource;
  sourceSectionId : option Z;
  isAdmin : bool
}.

(** The component as first rendered. *)
Definition initial (admin : bool) : State :=
  mkState [] [] None false (mkPosition 0 0) None None admin.

(** [handleWebSocketMessage], lines 366-391. *)
Definition handleWebSocketMessage (message : WebSocketMessage) (st : State) : State :=
  match message with
  | INIT_STATE state =>
      mkState (state_sections state) (state_items state) (draggedItem st)
              (isDragging st) (dragPosition st) (dragSource st)
              (sourceSectionId st) (isAdmin st)
  | DRAG_UPDATE item position =>
      mkState (sections st) (items st) (Some item) true position
              (dragSource st) (sourceSectionId st) (isAdmin st)
  | DROP_UPDATE sections' items' =>
      mkState sections' items' None false (dragPosition st)
              (dragSource st) (sourceSectionId st) (isAdmin st)
  | DRAG_END =>
      mkState (sections st) (items st) None false (dragPosition st)
              (dragSource st) (sourceSectionId st) (isAdmin st)
  end.

(** [handleDragStart], lines 401-425.  [clientX], [clientY] are the
    pointer coordinates of the event. *)
Definition handleDragStart (clientX clientY : Z) (item : Item)
    (source : DragSource) (sectionId : option Z) (st : State)
  : State * list WebSocketMessage :=
  if negb (isAdmin st) then (st, [])
  else
    (mkState (sections st) (items st) (Some item) true (dragPosition st)
             (Some source) sectionId (isAdmin st),
     [DRAG_UPDATE item (mkPosition clientX clientY)]).

(** [handleDrag], lines 427-444. *)
Definition handleDrag (clientX clientY : Z) (st : State)
  : State * list WebSocketMessage :=
  if bool_decide (clientX = 0) && bool_decide (clientY = 0) then (st, [])
  else
    let position := mkPosition clientX clientY in
    (mkState (sections st) (items st) (draggedItem st) (isDragging st) position
             (dragSource st) (sourceSectionId st) (isAdmin st),
     match draggedItem st with
     | Some item => [DRAG_UPDATE item position]
     | None => []
     end).

(** The four resets that end a drag. *)
Definition drag_over (sections' : list Section) (items' : list Item) (st : State) : State :=
  mkState sections' items' None false (dragPosition st) None None (isAdmin st).

(** [handleDragEnd], lines 446-455. *)
Definition handleDragEnd (st : State) : State * list WebSocketMessage :=
  (drag_over (sections st) (items st) st, [DRAG_END]).

(** [section.items.filter((item) => item.id !== draggedItem.id)] on the
    sections whose id is [sourceSectionId]. *)
Definition without (dragged : Item) (l : list Item) : list Item :=
  filter (λ item, item_id item ≠ item_id dragged) l.

Definition remove_from_source (source : option Z) (dragged : Item)
    (l : list Section) : list Section :=
  (λ section,
     if bool_decide (Some (section_id section) = source) then
       mkSection (section_id section) (section_title section)
                 (without dragged (section_items section))
     else section) <$> l.

(** The second [map] of [handleDropOnSection]: the dragged item goes to
    the end of every section with the target id that has no item of
    that id yet. *)
Definition add_to_target (target : Z) (dragged : Item) (l : list Section)
  : list Section :=
  (λ section,
     if bool_decide (section_id section = target) then
       let itemExists :=
         existsb (λ item, bool_decide (item_id item = item_id dragged))
                 (section_items section) in
       if negb itemExists then
         mkSection (section_id section) (section_title section)
                   (section_items section ++ [dragged])
       else section
     else section) <$> l.

(** [handleDropOnSection], lines 461-514. *)
Definition handleDropOnSection (targetSectionId : Z) (st : State)
  : State * list WebSocketMessage :=
  match draggedItem st with
  | None => (st, [])
  | Some dragged =>
      if negb (isAdmin st) then (st, [])
      else
        let '(newSections, newItems) :=
          match dragSource st with
          | Some from_section =>
              (remove_from_source (sourceSectionId st) dragged (sections st), items st)
          | Some from_items => (sections st, without dragged (items st))
          | None => (sections st, items st)
          end in
        let newSections := add_to_target targetSectionId dragged newSections in
        (drag_over newSections newItems st, [DROP_UPDATE newSections newItems])
  end.

(** [handleDropOnItemsList], lines 516-546. *)
Definition handleDropOnItemsList (st : State) : State * list WebSocketMessage :=
  match draggedItem st, dragSource st with
  | Some dragged, Some from_section =>
      if negb (isAdmin st) then (st, [])
      else
        let newSections := remove_from_source (sourceSectionId st) dragged (sections st) in
        let newItems := items st ++ [dragged] in
        (drag_over newSections newItems st, [DROP_UPDATE newSections newItems])
  | _, _ => (st, [])
  end.

(** [Math.max(...ids)] of at least one id. *)
Definition Math_max (first : Z) (rest : list Z) : Z := foldr Z.max first rest.

(** [findLastId], lines 575-577: zero for no items. *)
Definition findLastId (ids : list Z) : Z :=
  match ids with
  | [] => 0
  | first :: rest => Math_max first rest
  end.

(** [handleAddLeader], lines 552-573.  The source writes the same
    maximum inline. *)
Definition handleAddLeader (name : string) (st : State)
  : State * list WebSocketMessage :=
  let lastSectionId := findLastId (section_id <$> sections st) in
  let newSection := mkSection (lastSectionId + 1) name [] in
  let newSections := sections st ++ [newSection] in
  (mkState newSections (items st) (draggedItem st) (isDragging st)
           (dragPosition st) (dragSource st) (sourceSectionId st) (isAdmin st),
   [DROP_UPDATE newSections (items st)]).

(** [[...items, ...sections.flatMap((section) => section.items)]] *)
Definition allItems (st : State) : list Item :=
  items st ++ (sections st ≫= section_items).

(** [handleAddMember], lines 579-600. *)
Definition handleAddMember (name : string) (st : State)
  : State * list WebSocketMessage :=
  let lastItemId := findLastId (item_id <$> allItems st) in
  let newMember := mkItem (lastItemId + 1) name in
  let newItems := items st ++ [newMember] in
  (mkState (sections st) newItems (draggedItem st) (isDragging st)
           (dragPosition st) (dragSource st) (sourceSectionId st) (isAdmin st),
   [DROP_UPDATE (sections st) newItems]).

(** [DragIndicator.tsx]: what the indicator shows, if anything: the
    name of the dragged item and where. *)
Definition DragIndicator (isDragging : bool) (draggedItem : option Item)
    (position : Position) : option (string * Position) :=
  match isDragging, draggedItem with
  | true, Some item => Some (item_name item, position)
  | _, _ => None
  end.

Definition indicator (st : State) : option (string * Position) :=
  DragIndicator (isDragging st) (draggedItem st) (dragPosition st).

(** The drag recorded in the state is the one [handleDragStart]
    records for an item it was handed by the render: an item of the
    free list, or an item of the section whose id it was given. *)
Definition drag_recorded (dragged : Item) (st : State) : Prop :=
  draggedItem st = Some dragged
  ∧ ((dragSource st = Some from_items ∧ dragged ∈ items st)
     ∨ (dragSource st = Some from_section
        ∧ ∃ section, section ∈ sections st
                     ∧ sourceSectionId st = Some (section_id section)
                     ∧ dragged ∈ section_items section)).

(** Item ids and section ids are unique on the board. *)
Definition unique_ids (st : State) : Prop :=
  NoDup (item_id <$> allItems st) ∧ NoDup (section_id <$> sections st).

(** A handler either did nothing, or it sent one [DROP_UPDATE] that
    carries the board exactly as the handler left it. *)
Definition broadcast (st : State) (r : State * list WebSocketMessage) : Prop :=
  r = (st, [])
  ∨ snd r = [DROP_UPDATE (sections (fst r)) (items (fst r))].

(** What the render hands to [handleDragStart]: an item of the free
    list with source "items" and no section id, or an item of a section
    with source "section" and the id of that section. *)
Definition draggable (st : State) (item : Item) (source : DragSource)
    (sectionId : option Z) : Prop :=
  (source = from_items ∧ sectionId = None ∧ item ∈ items st)
  ∨ (source = from_section
     ∧ ∃ section, section ∈ sections st
                  ∧ sectionId = Some (section_id section)
                  ∧ item ∈ section_items section).

(** The drag events between the start of a drag and the drop, each at
    its pointer position. *)
Definition drags (moves : list (Z * Z)) (st : State) : State :=
  foldl (λ st move, fst (handleDrag (fst move) (snd move) st)) st moves.

End Dashboard.

(** ** The form of [AddMemberModal.tsx]

    The text of the input is a JavaScript string: a list of UTF-16 code
    units. *)
Module AddMemberModal.

(** The code units that [String.prototype.trim] strips: WhiteSpace and
    LineTerminator of ECMA-262 (tab, line feed, vertical tab, form
    feed, carriage return, space, no-break space, the space separators
    of Unicode, line and paragraph separator, byte order mark). *)
Definition is_space (c : N) : bool :=
  ((9 <=? c) && (c <=? 13) || (c =? 32) || (c =? 160) || (c =? 5760)
   || (8192 <=? c) && (c <=? 8202) || (c =? 8232) || (c =? 8233)
   || (c =? 8239) || (c =? 8287) || (c =? 12288) || (c =? 65279))%N.

Fixpoint trimStart (s : list N) : list N :=
  match s with
  | c :: rest => if is_space c then trimStart rest else s
  | [] => []
  end.

Definition trimEnd (s : list N) : list N := reverse (trimStart (reverse s)).

(** [name.trim()] *)
Definition trim (s : list N) : list N := trimEnd (trimStart s).

(** What the handler calls, in order. *)
Inductive Call : Type :=
  | preventDefault
  | onSubmit (name : list N)
  | onClose.

(** [handleSubmit], lines 27-34: from the text of the input to the text
    afterwards and the calls made.  A non-empty string is truthy. *)
Definition handleSubmit (name : list N) : list N * list Call :=
  match trim name with
  | [] => (name, [preventDefault])
  | _ :: _ => ([], [preventDefault; onSubmit (trim name); onClose])
  end.

End AddMemberModal.

(** ** More sample worlds and a sample board *)

(** The first socket closed abnormally: timer 1 is pending. *)
Definition armed : World := board_run [Close 0 1006] connecting.

(** Five abnormal closures in a row: the attempts are used up. *)
Definition exhausted : World :=
  board_run [Close 0 1006; Timeout 1; Close 1 1006; Timeout 2; Close 2 1006;
             Timeout 3; Close 3 1006; Timeout 4; Close 4 1006; Timeout 5]
            connecting.

(** The hook mounted with an error handler, its socket open. *)
Definition connected_with_onError : World :=
  board_run [Connect; Open 0] (mount 7 (Some 9%nat)).

(** An admin's board: one member in section 1, one in the free list. *)
Definition board : Dashboard.State :=
  Dashboard.mkState
    [Dashboard.mkSection 1 "A" [Dashboard.mkItem 1 "kim"];
     Dashboard.mkSection 2 "B" []]
    [Dashboard.mkItem 2 "lee"]
    None false (Dashboard.mkPosition 0 0) None None true.

(** The same board while "lee" is dragged from the free list, and
    while "kim" is dragged out of section 1. *)
Definition dragging_lee : Dashboard.State :=
  fst (Dashboard.handleDragStart 10 20 (Dashboard.mkItem 2 "lee")
         Dashboard.from_items None board).

Definition dragging_kim : Dashboard.State :=
  fst (Dashboard.handleDragStart 10 20 (Dashboard.mkItem 1 "kim")
         Dashboard.from_section (Some 1) board).

(** The board as a viewer has it. *)
Definition viewer_board : Dashboard.State :=
  Dashboard.mkState (Dashboard.sections board) (Dashboard.items board)
    None false (Dashboard.mkPosition 0 0) None None false.

(** ** [JSON.stringify]

    The text [JSON.stringify(value)] produces without an indent
    argument, as [sendMessage] calls it: no white space, members in
    order, strings quoted by QuoteJSONString of ECMA-262. *)
Module Stringify.

Definition hex (n : nat) : ascii :=
  nth n ["0"; "1"; "2"; "3"; "4"; "5"; "6"; "7"; "8"; "9";
         "a"; "b"; "c"; "d"; "e"; "f"] "0".

(** One character of a string literal: the quote and the backslash get
    a backslash, the control characters their short escape or
    [\u00XX]. *)
Definition escape (c : ascii) : list ascii :=
  match c with
  | "034" => ["\"; "034"]
  | "\" => ["\"; "\"]
  | "008" => ["\"; "b"]
  | "012" => ["\"; "f"]
  | "010" => ["\"; "n"]
  | "013" => ["\"; "r"]
  | "009" => ["\"; "t"]
  | _ =>
      let n := nat_of_ascii c in
      if (n <? 32)%nat then ["\"; "u"; "0"; "0"; hex (n / 16); hex (n mod 16)]
      else [c]
  end.

Definition quote (s : string) : list ascii :=
  "034" :: (list_ascii_of_string s ≫= escape) ++ ["034"].

(** Texts separated by commas. *)
Fixpoint join (texts : list (list ascii)) : list ascii :=
  match texts with
  | [] => []
  | [t] => t
  | t :: ts => t ++ "," :: join ts
  end.

Fixpoint value (v : JSON) : list ascii :=
  match v with
  | JNull => ["n"; "u"; "l"; "l"]
  | JBool true => ["t"; "r"; "u"; "e"]
  | JBool false => ["f"; "a"; "l"; "s"; "e"]
  | JNumber literal => list_ascii_of_string literal
  | JString s => quote s
  | JArray elements => "[" :: join (map value elements) ++ ["]"]
  | JObject members =>
      "{" :: join (map (λ member,
                          match member with
                          | (k, x) => quote k ++ ":" :: value x
                          end) members) ++ ["}"]
  end.


(** A number literal is one that [JSON.parse] reads as a number, all of
    it. *)
Definition is_literal (literal : string) : bool :=
  match Json.number (list_ascii_of_string literal) with
  | Some (read, []) => bool_decide (read = literal)
  | _ => false
  end.

(** The values whose numbers are number literals. *)
Fixpoint well_formed (v : JSON) : bool :=
  match v with
  | JNumber literal => is_literal literal
  | JArray elements => forallb well_formed elements
  | JObject members =>
      forallb (λ member, match member with (_, x) => well_formed x end) members
  | _ => true
  end.

(** What may follow a value in a text: nothing, a comma, or a closing
    bracket. *)
Definition follows (rest : list ascii) : Prop :=
  rest = [] ∨ ∃ t, rest = "," :: t ∨ rest = "]" :: t ∨ rest = "}" :: t.


End Stringify.

(** ** Messages as JavaScript values

    The object that a message of the dashboard is when it is handed to
    [sendMessage]: the members in the order the source writes them,
    integers as the literals that Number::toString gives them. *)
Module Wire.
Import Dashboard.

Definition number (z : Z) : JSON :=
  JNumber (DecimalString.NilZero.string_of_int (Z.to_int z)).

Definition item (i : Item) : JSON :=
  JObject [("id", number (item_id i)); ("name", JString (item_name i))]%string.

Definition section (s : Section) : JSON :=
  JObject [("id", number (section_id s));
           ("title", JString (section_title s));
           ("items", JArray (map item (section_items s)))]%string.

Definition position (p : Position) : JSON :=
  JObject [("x", number (pos_x p)); ("y", number (pos_y p))]%string.

Definition appState (a : AppState) : JSON :=
  JObject [("sections", JArray (map section (state_sections a)));
           ("items", JArray (map item (state_items a)));
           ("lastUpdated", number (lastUpdated a))]%string.

Definition message (m : WebSocketMessage) : JSON :=
  match m with
  | DRAG_UPDATE i p =>
      JObject [("type", JString "DRAG_UPDATE"); ("item", item i);
               ("position", position p)]%string
  | DROP_UPDATE held free =>
      JObject [("type", JString "DROP_UPDATE");
               ("sections", JArray (map section held));
               ("items", JArray (map item free))]%string
  | DRAG_END => JObject [("type", JString "DRAG_END")]%string
  | INIT_STATE a =>
      JObject [("type", JString "INIT_STATE"); ("state", appState a)]%string
  end.

End Wire.

(** * Properties *)

(** ** The parser and the message type on sample texts *)

Example parse_scalar : Json.parse "42" = Some (JNumber "42").
Proof. reflexivity. Qed.

Example parse_drag_end :
  Json.parse ("{" ++ quoted "type" ++ ":" ++ quoted "DRAG_END" ++ "}")%string
  = Some (JObject [("type", JString "DRAG_END")])%string.
Proof. vm_compute. reflexivity. Qed.

Example parse_nested :
  Json.parse " [[[[1]]], [] ,{}, -0.5e+3 ] "
  = Some (JArray [JArray [JArray [JArray [JNumber "1"]]]; JArray [];
                  JObject []; JNumber "-0.5e+3"])%string.
Proof. vm_compute. reflexivity. Qed.

Example parse_rejects_blob : Json.parse "[object Blob]" = None.
Proof. vm_compute. reflexivity. Qed.

Example parse_rejects_trailing : Json.parse "{} x" = None.
Proof. vm_compute. reflexivity. Qed.

Example parse_init_state : Json.parse init_state_text = Some init_state_value.
Proof. vm_compute. reflexivity. Qed.

Example init_state_is_message : Types.is_WebSocketMessage init_state_value = true.
Proof. vm_compute. reflexivity. Qed.

Example scalar_is_no_message : Types.is_WebSocketMessage (JNumber "42") = false.
Proof. reflexivity. Qed.

Ltac js_unfold :=
  unfold step, deliver, reconnect, on_timeout, cleanup, connect, onopen,
    onclose, onmessage, onerror, sendMessage, update_handlers,
    call_messageHandler, call_errorHandler, new_WebSocket, setIsConnected,
    JSON_parse, try_catch, throw, read, write, emit, console, readyState,
    ws_close, ws_send, setTimeout, clearTimeout, transport, expire, logged,
    with_hook, mbind, JS_bind, mret, JS_ret in *.

Ltac js_simpl := js_unfold; simpl in *.

Section Properties.

Variable url : string.
Variable WebSocket_rejects : string → option Exn.
Variable onMessage_throws : nat → JSON → bool.
Variable onError_throws : nat → bool.

Local Abbreviation connect := (connect url WebSocket_rejects).
Local Abbreviation reconnect := (reconnect url WebSocket_rejects).
Local Abbreviation step := (step url WebSocket_rejects onMessage_throws onError_throws).
Local Abbreviation run := (run url WebSocket_rejects onMessage_throws onError_throws).

(** C6. A call of [connect] while the socket that [wsRef] holds is
    open or connecting returns at once: the world after the call is
    the world before it, so no socket was constructed and nothing of
    the hook changed. *)
Theorem connect_idempotent (w : World) (s : nat) (r : ReadyState) :
  wsRef (hook w) = Some s →
  sockets w !! s = Some r →
  r = OPEN ∨ r = CONNECTING →
  connect w = (Returns (), w).
Proof.
  intros Hs Hr Hlive. js_simpl. rewrite Hs. simpl. rewrite Hr.
  destruct Hlive as [-> | ->]; reflexivity.
Qed.


(** C8. When [new WebSocket(url)] throws, [connect] returns normally
    and leaves the hook, the sockets and the timers as they were; when
    the call got as far as the constructor (the socket in [wsRef], if
    any, is neither open nor connecting, and fewer than five attempts
    were made), all it did is log the error. *)
Theorem connect_constructor_throws (w : World) (e : Exn) :
  WebSocket_rejects url = Some e →
  (fst (connect w) = Returns ()
   ∧ hook (snd (connect w)) = hook w
   ∧ sockets (snd (connect w)) = sockets w
   ∧ timers (snd (connect w)) = timers w
   ∧ next_timer (snd (connect w)) = next_timer w
   ∧ delays (trace (snd (connect w))) = delays (trace w))
  ∧ ((∀ s, wsRef (hook w) = Some s →
           sockets w !! s ≠ Some OPEN ∧ sockets w !! s ≠ Some CONNECTING) →
     (reconnectAttemptsRef (hook w) < maxReconnectAttempts)%nat →
     connect w = (Returns (), logged error "WebSocket Connection Error:" w)).
Proof.
  intros Hthrow. split.
  - js_simpl. rewrite Hthrow.
    destruct (bool_decide _ || bool_decide _);
      [| case_bool_decide]; simpl; repeat split; reflexivity.
  - intros Hguard Hcap. js_simpl. rewrite Hthrow.
    destruct (wsRef (hook w)) as [s|] eqn:Hs; simpl.
    + destruct (Hguard s eq_refl) as [Hopen Hconn].
      rewrite !bool_decide_eq_false_2 by done. simpl.
      rewrite bool_decide_eq_false_2 by (unfold maxReconnectAttempts in *; lia).
      reflexivity.
    + rewrite bool_decide_eq_false_2 by (unfold maxReconnectAttempts in *; lia).
      reflexivity.
Qed.

(** Splits a goal about one callback into the paths through it. *)
Ltac js_paths :=
  js_simpl;
  repeat first
    [ progress simplify_eq/=
    | match goal with
      | H : bool_decide _ = true |- _ => apply bool_decide_eq_true in H
      | H : bool_decide _ = false |- _ => apply bool_decide_eq_false in H
      | H : context [match ?x with _ => _ end] |- _ => destruct x eqn:?
      | |- context [match ?x with _ => _ end] => destruct x eqn:?
      end ].

(** C10. [cleanup] does not write [isConnected]: it clears the timer
    that [reconnectTimeoutRef] holds, calls [close] with code 1000 on
    the socket that [wsRef] holds, and empties both refs; the flag, the
    attempt counter and the handlers stay as they were.  An event that
    changes the flag is an open event (to true) or a close event (to
    false) of a socket of the hook. *)
Theorem cleanup_keeps_isConnected (w : World) :
  (isConnected (hook (snd (cleanup w))) = isConnected (hook w)
   ∧ wsRef (hook (snd (cleanup w))) = None
   ∧ reconnectTimeoutRef (hook (snd (cleanup w))) = None
   ∧ reconnectAttemptsRef (hook (snd (cleanup w))) = reconnectAttemptsRef (hook w)
   ∧ timers (snd (cleanup w))
     = from_option (λ t, delete t (timers w)) (timers w) (reconnectTimeoutRef (hook w))
   ∧ sockets (snd (cleanup w))
     = from_option (λ s, alter closing s (sockets w)) (sockets w) (wsRef (hook w))
   ∧ ∀ s c r, CloseCalled s c r ∈ trace (snd (cleanup w)) →
              CloseCalled s c r ∈ trace w ∨ (c = 1000 ∧ wsRef (hook w) = Some s))
  ∧ ∀ e, isConnected (hook (step w e)) ≠ isConnected (hook w) →
         (∃ s, e = Open s ∧ is_Some (sockets w !! s)
               ∧ isConnected (hook (step w e)) = true)
         ∨ (∃ s c, e = Close s c ∧ is_Some (sockets w !! s)
                   ∧ isConnected (hook (step w e)) = false).
Proof.
  split.
  - destruct w as [[c s t n hm he] ss ts nt tr]. js_simpl.
    destruct t as [t|], s as [s|]; simpl; repeat split; try reflexivity;
      intros s' c' r' Hin; repeat (apply elem_of_cons in Hin as [Heq | Hin]);
      try discriminate; try (left; exact Hin);
      injection Heq as -> -> ->; right; split; reflexivity.
  - intros e Hne.
    destruct e as [ | | | m | h h' | s | s f | s | s code | t]; try (exfalso; apply Hne; clear Hne; js_paths; reflexivity).
    + left. exists s. revert Hne. js_paths; naive_solver.
    + right. exists s, code. revert Hne. js_paths; naive_solver.
Qed.

(** C3. A close event with code 1000 marks the hook disconnected and
    empties [wsRef]; it arms no timer: the pending timers, the next
    handle, [reconnectTimeoutRef] and the delays in the trace are as
    before.  An event that arms a timer is a close event of a socket
    of the hook whose code is not 1000. *)
Theorem normal_close_never_retries (w : World) (s : nat) :
  is_Some (sockets w !! s) →
  (isConnected (hook (step w (Close s 1000))) = false
   ∧ wsRef (hook (step w (Close s 1000))) = None
   ∧ reconnectTimeoutRef (hook (step w (Close s 1000))) = reconnectTimeoutRef (hook w)
   ∧ timers (step w (Close s 1000)) = timers w
   ∧ next_timer (step w (Close s 1000)) = next_timer w
   ∧ delays (trace (step w (Close s 1000))) = delays (trace w))
  ∧ ∀ e, (delays (trace (step w e)) ≠ delays (trace w)
          ∨ next_timer (step w e) ≠ next_timer w) →
         ∃ s' code, e = Close s' code ∧ is_Some (sockets w !! s') ∧ code ≠ 1000.
Proof.
  intros Hs. split.
  - js_simpl. rewrite bool_decide_eq_true_2 by done. simpl.
    repeat split; reflexivity.
  - intros e Hne.
    destruct e as [ | | | m | h h' | s' | s' f | s' | s' code | t];
      try (exfalso; destruct Hne as [Hne | Hne]; apply Hne; clear Hne;
           unfold delays; js_paths; reflexivity).
    exists s', code. split; [reflexivity |].
    destruct (decide (is_Some (sockets w !! s'))) as [Hs' | Hs'].
    + split; [exact Hs' |]. intros ->.
      destruct Hne as [Hne | Hne]; apply Hne; clear Hne;
        unfold delays; js_paths; try reflexivity; contradiction.
    + exfalso. destruct Hne as [Hne | Hne]; apply Hne; clear Hne;
        unfold delays; js_paths; try reflexivity; contradiction.
Qed.

(** C9. The close reaction does not look at the socket its event came
    from.  A close event of any socket of the hook, with any code,
    sets [isConnected] to false and empties [wsRef]; only the socket
    of the event becomes closed.  So when [wsRef] held another socket
    that is open or connecting, that socket stays as it is and the
    hook no longer refers to it. *)
Theorem close_clears_wsRef_of_any_socket (w : World) (s : nat) (code : Z) :
  is_Some (sockets w !! s) →
  isConnected (hook (step w (Close s code))) = false
  ∧ wsRef (hook (step w (Close s code))) = None
  ∧ sockets (step w (Close s code)) = <[s := CLOSED]> (sockets w)
  ∧ ∀ s' r, wsRef (hook w) = Some s' → s' ≠ s →
            sockets w !! s' = Some r → live r = true →
            sockets (step w (Close s code)) !! s' = Some r
            ∧ wsRef (hook (step w (Close s code))) = None.
Proof.
  intros Hs.
  assert (Hstep : isConnected (hook (step w (Close s code))) = false
                  ∧ wsRef (hook (step w (Close s code))) = None
                  ∧ sockets (step w (Close s code)) = <[s := CLOSED]> (sockets w)).
  { js_simpl. rewrite bool_decide_eq_true_2 by done. simpl.
    case_bool_decide; simpl; repeat split; reflexivity. }
  destruct Hstep as (Hflag & Href & Hsock). repeat split; try assumption.
  rewrite Hsock. rewrite list_lookup_insert_ne by done. assumption.
Qed.

Lemma snoc_neq {A : Type} (l : list A) (x : A) : l ++ [x] ≠ l.
Proof.
  intros Heq. apply (f_equal length) in Heq.
  rewrite length_app in Heq. simpl in Heq. lia.
Qed.

(** What one delivery of a data frame does, by the outcome of
    [JSON.parse]. *)
Lemma onmessage_unparseable (w : World) (s : nat) (f : Frame) :
  is_Some (sockets w !! s) →
  Json.parse (to_string f) = None →
  step w (Message s f) = logged error "Failed to parse message:" w.
Proof.
  intros Hs Hparse. js_simpl.
  rewrite bool_decide_eq_true_2 by done. rewrite Hparse. reflexivity.
Qed.

Lemma onmessage_parsed (w : World) (s : nat) (f : Frame) (v : JSON) :
  is_Some (sockets w !! s) →
  Json.parse (to_string f) = Some v →
  calls (trace (step w (Message s f)))
  = calls (trace w) ++ [(messageHandlerRef (hook w), v)]
  ∧ hook (step w (Message s f)) = hook w
  ∧ sockets (step w (Message s f)) = sockets w
  ∧ timers (step w (Message s f)) = timers w
  ∧ constructions (trace (step w (Message s f))) = constructions (trace w).
Proof.
  intros Hs Hparse. js_simpl.
  rewrite bool_decide_eq_true_2 by done. rewrite Hparse. simpl.
  destruct (onMessage_throws _ v); simpl; repeat split; reflexivity.
Qed.

(** C4, amended.  A data frame that [JSON.parse] rejects is logged and
    dropped: the world after the delivery is the world before it with
    one more line on the console, so the handler was not called, no
    socket was closed and [isConnected] is as before.  A frame that
    [JSON.parse] accepts reaches the handler in [messageHandlerRef]
    once, with the parsed value, whether or not the value is a
    [WebSocketMessage].  The handler is called exactly when
    [JSON.parse] succeeds. *)
Theorem onmessage_dispatch (w : World) (s : nat) (f : Frame) :
  is_Some (sockets w !! s) →
  (Json.parse (to_string f) = None →
   step w (Message s f) = logged error "Failed to parse message:" w)
  ∧ (∀ v, Json.parse (to_string f) = Some v →
          calls (trace (step w (Message s f)))
          = calls (trace w) ++ [(messageHandlerRef (hook w), v)]
          ∧ hook (step w (Message s f)) = hook w
          ∧ sockets (step w (Message s f)) = sockets w)
  ∧ (calls (trace (step w (Message s f))) ≠ calls (trace w)
     ↔ is_Some (Json.parse (to_string f))).
Proof.
  intros Hs. split; [| split].
  - by apply onmessage_unparseable.
  - intros v Hv. destruct (onmessage_parsed w s f v Hs Hv) as (? & ? & ? & _).
    by repeat split.
  - destruct (Json.parse (to_string f)) as [v|] eqn:Hparse.
    + destruct (onmessage_parsed w s f v Hs Hparse) as (-> & _).
      split; [eauto | intros _; apply snoc_neq].
    + rewrite (onmessage_unparseable w s f Hs Hparse). simpl.
      split; [intros Hne; by destruct Hne | intros [? ?]; discriminate].
Qed.

(** C7. Two data frames with a render between them that passes new
    handlers: the first frame reaches the handler that was in
    [messageHandlerRef], the second reaches the new handler and no
    other.  The render writes the two handler refs and nothing else:
    no socket is closed or constructed.  Only a render changes
    [messageHandlerRef]. *)
Theorem latest_handler_is_called
    (w : World) (s1 s2 : nat) (f1 f2 : Frame) (v1 v2 : JSON)
    (h' : nat) (e' : option nat) :
  is_Some (sockets w !! s1) →
  is_Some (sockets w !! s2) →
  Json.parse (to_string f1) = Some v1 →
  Json.parse (to_string f2) = Some v2 →
  let w1 := step w (Message s1 f1) in
  let w2 := step w1 (Render h' e') in
  let w3 := step w2 (Message s2 f2) in
  calls (trace w1) = calls (trace w) ++ [(messageHandlerRef (hook w), v1)]
  ∧ calls (trace w3) = calls (trace w1) ++ [(h', v2)]
  ∧ (sockets w2 = sockets w1 ∧ timers w2 = timers w1 ∧ trace w2 = trace w1
     ∧ wsRef (hook w2) = wsRef (hook w1)
     ∧ isConnected (hook w2) = isConnected (hook w1)
     ∧ reconnectAttemptsRef (hook w2) = reconnectAttemptsRef (hook w1))
  ∧ constructions (trace w3) = constructions (trace w)
  ∧ ∀ e, messageHandlerRef (hook (step w e)) ≠ messageHandlerRef (hook w) →
         ∃ h e', e = Render h e'.
Proof.
  intros Hs1 Hs2 Hv1 Hv2 w1 w2 w3.
  destruct (onmessage_parsed w s1 f1 v1 Hs1 Hv1) as (Hc1 & Hh1 & Hss1 & Hts1 & Hk1).
  assert (Hrender : sockets w2 = sockets w1 ∧ timers w2 = timers w1
                    ∧ trace w2 = trace w1
                    ∧ wsRef (hook w2) = wsRef (hook w1)
                    ∧ isConnected (hook w2) = isConnected (hook w1)
                    ∧ reconnectAttemptsRef (hook w2) = reconnectAttemptsRef (hook w1)
                    ∧ messageHandlerRef (hook w2) = h').
  { subst w2. generalize w1. intros w'. js_simpl. repeat split; reflexivity. }
  destruct Hrender as (Hss2 & Hts2 & Htr2 & Hws2 & Hic2 & Hat2 & Hh2).
  assert (Hs2' : is_Some (sockets w2 !! s2)).
  { rewrite Hss2. subst w1. rewrite Hss1. exact Hs2. }
  destruct (onmessage_parsed w2 s2 f2 v2 Hs2' Hv2) as (Hc3 & _ & _ & _ & Hk3).
  split; [exact Hc1 |]. split.
  { subst w3. rewrite Hc3, Hh2, Htr2. reflexivity. }
  split; [by repeat split |]. split.
  { subst w3. rewrite Hk3, Htr2. exact Hk1. }
  intros e Hne.
  destruct e as [ | | | m | h h0 | s' | s' f | s' | s' code | t];
    try (exfalso; apply Hne; clear; js_paths; reflexivity).
  eauto.
Qed.

Local Abbreviation no_reset :=
  (no_reset url WebSocket_rejects onMessage_throws onError_throws).
Local Abbreviation fired :=
  (fired url WebSocket_rejects onMessage_throws onError_throws).

Lemma reset_writes_zero (w : World) (e : Event) :
  resets w e = true → reconnectAttemptsRef (hook (step w e)) = 0%nat.
Proof.
  destruct e as [ | | | m | h h' | s | s f | s | s code | t];
    simpl; try discriminate; intros Hr; js_paths;
    first [reflexivity | contradiction].
Qed.

Lemma quiet_step_counts (w : World) (e : Event) :
  resets w e = false →
  reconnectAttemptsRef (hook (step w e))
  = (reconnectAttemptsRef (hook w) + if fires w e then 1 else 0)%nat.
Proof.
  destruct e as [ | | | m | h h' | s | s f | s | s code | t];
    simpl; try discriminate; intros Hr; js_paths;
    first [contradiction | lia].
Qed.

Lemma quiet_run_counts (es : list Event) (w : World) :
  no_reset w es = true →
  reconnectAttemptsRef (hook (run es w))
  = (reconnectAttemptsRef (hook w) + fired w es)%nat.
Proof.
  revert w. induction es as [| e es IH]; intros w; simpl.
  - intros _. lia.
  - intros [Hq Hes]%andb_true_iff. apply negb_true_iff in Hq.
    unfold run in IH |- *. simpl.
    rewrite (IH _ Hes), (quiet_step_counts w e Hq). lia.
Qed.

(** C5. Over every sequence of events: an open event of a socket of
    the hook and a call of [reconnect] leave the attempt counter at
    zero; every other event leaves it as it was, except a firing
    reconnect timer, which adds one.  So along a run without a reset
    the counter never decreases: after the run it is the counter
    before the run plus the number of timers that fired.  An event
    constructs a socket only when it leaves the counter below the
    cap of five. *)
Theorem attempts_reset_or_grow (w : World) :
  (∀ e, resets w e = true → reconnectAttemptsRef (hook (step w e)) = 0%nat)
  ∧ (∀ e, resets w e = false →
          reconnectAttemptsRef (hook (step w e))
          = (reconnectAttemptsRef (hook w) + if fires w e then 1 else 0)%nat)
  ∧ (∀ es1 es2, no_reset (run es1 w) es2 = true →
                reconnectAttemptsRef (hook (run (es1 ++ es2) w))
                = (reconnectAttemptsRef (hook (run es1 w)) + fired (run es1 w) es2)%nat
                ∧ (reconnectAttemptsRef (hook (run es1 w))
                   ≤ reconnectAttemptsRef (hook (run (es1 ++ es2) w)))%nat)
  ∧ (∀ e, constructions (trace (step w e)) ≠ constructions (trace w) →
          (reconnectAttemptsRef (hook (step w e)) < maxReconnectAttempts)%nat).
Proof.
  split; [exact (reset_writes_zero w) |].
  split; [exact (quiet_step_counts w) |].
  split.
  - intros es1 es2 Hq.
    assert (Happ : run (es1 ++ es2) w = run es2 (run es1 w))
      by (unfold run; apply foldl_app).
    rewrite Happ, (quiet_run_counts es2 _ Hq). split; lia.
  - intros e Hne. unfold maxReconnectAttempts.
    destruct e as [ | | | m | h h' | s | s f | s | s code | t];
      try (exfalso; apply Hne; clear Hne; unfold constructions;
           js_paths; reflexivity).
    + revert Hne. unfold constructions. js_paths; intros Hne;
        try (exfalso; apply Hne; reflexivity);
        unfold maxReconnectAttempts in *; lia.
    + revert Hne. unfold constructions. js_paths; intros Hne;
        try (exfalso; apply Hne; reflexivity); lia.
    + revert Hne. unfold constructions. js_paths; intros Hne;
        try (exfalso; apply Hne; reflexivity);
        unfold maxReconnectAttempts in *; lia.
Qed.

(** One abnormal closure and the firing of the timer it armed. *)
Lemma abnormal_round (w : World) (s : nat) (code : Z) :
  WebSocket_rejects url = None →
  is_Some (sockets w !! s) →
  code ≠ 1000 →
  let w' := run [Close s code; Timeout (next_timer w)] w in
  let k := reconnectAttemptsRef (hook w) in
  delays (trace w') = delays (trace w) ++ [backoff k]
  ∧ reconnectAttemptsRef (hook w') = S k
  ∧ next_timer w' = S (next_timer w)
  ∧ timers w' !! next_timer w = None
  ∧ if bool_decide (S k < maxReconnectAttempts)%nat then
      wsRef (hook w') = Some (length (sockets w))
      ∧ sockets w' = <[s := CLOSED]> (sockets w) ++ [CONNECTING]
      ∧ constructions (trace w') = constructions (trace w) ++ [length (sockets w)]
    else
      wsRef (hook w') = None
      ∧ sockets w' = <[s := CLOSED]> (sockets w)
      ∧ constructions (trace w') = constructions (trace w).
Proof.
  intros Hok Hs Hcode. unfold run. simpl. js_simpl.
  rewrite (bool_decide_eq_true_2 _ Hs). simpl.
  rewrite (bool_decide_eq_true_2 _ Hcode). simpl.
  rewrite lookup_insert_eq. simpl.
  rewrite Hok. unfold maxReconnectAttempts.
  destruct (bool_decide (5 <= _)%nat) eqn:Hcap;
    [apply bool_decide_eq_true in Hcap | apply bool_decide_eq_false in Hcap].
  - rewrite bool_decide_eq_false_2 by lia. simpl.
    unfold delays, constructions. simpl.
    rewrite lookup_delete_eq. repeat split; f_equal; lia.
  - rewrite bool_decide_eq_true_2 by lia. simpl.
    unfold delays, constructions. simpl.
    rewrite lookup_delete_eq, length_insert. repeat split; f_equal; lia.
Qed.





(** What [reconnect] does in every world in which the constructor
    accepts the URL: the timer in [reconnectTimeoutRef] is no longer
    pending, [close] was called on the socket in [wsRef], the counter
    is zero, and a socket was constructed in the same call, with no
    timer armed. *)
Lemma reconnect_effects (w : World) :
  WebSocket_rejects url = None →
  fst (reconnect w) = Returns ()
  ∧ (∀ t, reconnectTimeoutRef (hook w) = Some t →
          timers (snd (reconnect w)) !! t = None)
  ∧ reconnectTimeoutRef (hook (snd (reconnect w))) = None
  ∧ (∀ s r, wsRef (hook w) = Some s → sockets w !! s = Some r →
            sockets (snd (reconnect w)) !! s = Some (closing r))
  ∧ reconnectAttemptsRef (hook (snd (reconnect w))) = 0%nat
  ∧ wsRef (hook (snd (reconnect w))) = Some (length (sockets w))
  ∧ sockets (snd (reconnect w))
    = from_option (λ s, alter closing s (sockets w)) (sockets w) (wsRef (hook w))
      ++ [CONNECTING]
  ∧ next_timer (snd (reconnect w)) = next_timer w
  ∧ delays (trace (snd (reconnect w))) = delays (trace w)
  ∧ constructions (trace (snd (reconnect w)))
    = constructions (trace w) ++ [length (sockets w)].
Proof.
  intros Hok. destruct w as [[c s t n hm he] ss ts nt tr].
  unfold delays, constructions. js_simpl. rewrite Hok.
  destruct t as [t|], s as [s|]; simpl;
    rewrite ?length_alter; repeat split; try reflexivity;
    try (intros ? [= <-]; apply lookup_delete_eq);
    try discriminate.
  all: intros s' r [= <-] Hr; rewrite lookup_app_l
      by (rewrite length_alter; eapply lookup_lt_Some; eassumption);
    rewrite list_lookup_alter_eq, Hr; reflexivity.
Qed.

Lemma filter_none {A : Type} (P : A → Prop) `{!∀ x, Decision (P x)} (l : list A) :
  Forall (λ x, ¬ P x) l → filter P l = [].
Proof.
  induction 1 as [| x l Hx _ IH]; [reflexivity |].
  rewrite filter_cons_False by exact Hx. exact IH.
Qed.

(** When every live socket of the hook is the one in [wsRef], the
    socket that [reconnect] constructs is the only live one. *)
Lemma reconnect_single_live (w : World) :
  WebSocket_rejects url = None →
  owned w →
  live_sockets (snd (reconnect w)) = 1%nat.
Proof.
  intros Hok Hown.
  destruct (reconnect_effects w Hok) as (_ & _ & _ & _ & _ & _ & Hss & _).
  unfold live_sockets. rewrite Hss, filter_app, length_app. simpl.
  assert (Hdead : Forall (λ r, ¬ live r = true)
            (from_option (λ s, alter closing s (sockets w)) (sockets w)
                         (wsRef (hook w)))).
  { apply Forall_lookup. intros i r Hi.
    destruct (wsRef (hook w)) as [s|] eqn:Hws; simpl in Hi.
    - destruct (decide (s = i)) as [-> | Hne].
      + rewrite list_lookup_alter_eq in Hi.
        destruct (sockets w !! i) as [r0|]; simplify_eq/=. by destruct r0.
      + rewrite list_lookup_alter_ne in Hi by done.
        intros Hlive. specialize (Hown i r Hi Hlive). congruence.
    - intros Hlive. specialize (Hown i r Hi Hlive). congruence. }
  rewrite (filter_none _ _ Hdead). reflexivity.
Qed.

End Properties.

(** ** The properties on concrete runs *)


Lemma normal_close_never_retries_witness :
  is_Some (sockets connected !! 0%nat)
  ∧ isConnected (hook (board_step connected (Close 0 1000))) = false
  ∧ timers (board_step connected (Close 0 1000)) = timers connected.
Proof.
  assert (Hs : is_Some (sockets connected !! 0%nat)) by (exists OPEN; reflexivity).
  split; [exact Hs |].
  destruct (normal_close_never_retries board_url accepts onMessage_returns
              onError_returns connected 0 Hs) as ((Hflag & _ & _ & Hts & _) & _).
  split; [exact Hflag | exact Hts].
Defined.

Lemma onmessage_dispatch_witness :
  is_Some (sockets connected !! 0%nat)
  ∧ board_step connected (Message 0 (Text "not json"))
    = logged error "Failed to parse message:" connected.
Proof.
  assert (Hs : is_Some (sockets connected !! 0%nat)) by (exists OPEN; reflexivity).
  split; [exact Hs |].
  destruct (onmessage_dispatch board_url accepts onMessage_returns onError_returns
              connected 0 (Text "not json") Hs) as (Hdrop & _).
  apply Hdrop. vm_compute. reflexivity.
Defined.

(** C4 as stated fails: a text that [JSON.parse] accepts reaches the
    handler although it is none of the four variants. *)
Lemma untyped_frame_reaches_handler :
  parses_as_message (Text ping_text) = false
  ∧ calls (trace connected) = []
  ∧ calls (trace (board_step connected (Message 0 (Text ping_text))))
    = [(7%nat, ping_value)].
Proof. vm_compute. repeat split. Qed.

Lemma attempts_reset_or_grow_witness :
  reconnectAttemptsRef (hook (board_step after_late_close Reconnect)) = 0%nat.
Proof.
  destruct (attempts_reset_or_grow board_url accepts onMessage_returns
              onError_returns after_late_close) as (Hreset & _).
  apply Hreset. reflexivity.
Defined.

Lemma connect_idempotent_witness :
  wsRef (hook connecting) = Some 0%nat
  ∧ sockets connecting !! 0%nat = Some CONNECTING
  ∧ connect board_url accepts connecting = (Returns (), connecting).
Proof.
  split; [reflexivity |]. split; [reflexivity |].
  apply (connect_idempotent board_url accepts connecting 0 CONNECTING);
    [reflexivity | reflexivity | right; reflexivity].
Defined.

Lemma latest_handler_is_called_witness :
  calls (trace (board_run [Message 0 (Text "42"); Render 8 None;
                           Message 0 (Text init_state_text)] connected))
  = [(7%nat, JNumber "42"); (8%nat, init_state_value)].
Proof.
  assert (Hs : is_Some (sockets connected !! 0%nat)) by (exists OPEN; reflexivity).
  assert (H1 : Json.parse (to_string (Text "42")) = Some (JNumber "42"))
    by reflexivity.
  assert (H2 : Json.parse (to_string (Text init_state_text)) = Some init_state_value)
    by (vm_compute; reflexivity).
  destruct (latest_handler_is_called board_url accepts onMessage_returns
              onError_returns connected 0 0 (Text "42") (Text init_state_text)
              (JNumber "42") init_state_value 8 None Hs Hs H1 H2)
    as (Hfirst & Hsecond & _).
  unfold board_run, run. simpl foldl.
  rewrite Hsecond, Hfirst. reflexivity.
Defined.

Lemma connect_constructor_throws_witness :
  rejects board_url = Some SyntaxError
  ∧ connect board_url rejects (mount 7 None)
    = (Returns (), logged error "WebSocket Connection Error:" (mount 7 None)).
Proof.
  split; [reflexivity |].
  destruct (connect_constructor_throws board_url rejects (mount 7 None)
              SyntaxError eq_refl) as (_ & Hlog).
  apply Hlog.
  - intros s Hs. discriminate.
  - unfold maxReconnectAttempts. simpl. lia.
Defined.

Lemma close_clears_wsRef_of_any_socket_witness :
  wsRef (hook reconnected) = Some 1%nat
  ∧ sockets reconnected !! 1%nat = Some CONNECTING
  ∧ sockets after_late_close !! 1%nat = Some CONNECTING
  ∧ wsRef (hook after_late_close) = None.
Proof.
  assert (Hs : is_Some (sockets reconnected !! 0%nat)) by (exists CLOSING; reflexivity).
  split; [reflexivity |]. split; [reflexivity |].
  destruct (close_clears_wsRef_of_any_socket board_url accepts onMessage_returns
              onError_returns reconnected 0 1000 Hs) as (_ & _ & _ & Hlate).
  apply (Hlate 1%nat CONNECTING); [reflexivity | lia | reflexivity | reflexivity].
Defined.

Lemma cleanup_keeps_isConnected_witness :
  isConnected (hook connected) = true
  ∧ isConnected (hook (snd (cleanup connected))) = true
  ∧ wsRef (hook (snd (cleanup connected))) = None.
Proof.
  destruct (cleanup_keeps_isConnected board_url accepts onMessage_returns
              onError_returns connected) as ((Hflag & Href & _) & _).
  split; [reflexivity |]. split; [| exact Href].
  rewrite Hflag. reflexivity.
Defined.

(** [reconnect] clears the timer in [reconnectTimeoutRef] only: a timer
    that an earlier close event armed and a later one overwrote in the
    ref stays pending. *)
Example reconnect_leaves_unreferenced_timer :
  deliverable_run board_url accepts onMessage_returns onError_returns (mount 7 None)
    [Connect; Reconnect; Close 0 1006; Close 1 1006; Reconnect] = true
  ∧ reconnectTimeoutRef (hook two_timers) = Some 2%nat
  ∧ timers two_timers !! 1%nat = Some 1000
  ∧ timers two_timers !! 2%nat = Some 1000
  ∧ timers (board_step two_timers Reconnect) !! 2%nat = None
  ∧ timers (board_step two_timers Reconnect) !! 1%nat = Some 1000.
Proof. vm_compute. repeat split. Qed.

(** C2 at a world the hook reaches: the hook is mounted, its socket
    opens, [reconnect] is called, and the close event of the old socket
    arrives.  That event empties [wsRef] while the socket that
    [reconnect] constructed is still connecting; a second [reconnect]
    then finds nothing to close and constructs a third socket, so two
    sockets of the hook are connecting at once. *)
Theorem reconnect_duplicates_connection :
  deliverable_run board_url accepts onMessage_returns onError_returns (mount 7 None)
    [Connect; Open 0; Reconnect; Close 0 1000; Reconnect] = true
  ∧ sockets after_late_close = [CLOSED; CONNECTING]
  ∧ wsRef (hook after_late_close) = None
  ∧ constructions (trace (board_step after_late_close Reconnect)) = [0; 1; 2]%nat
  ∧ sockets (board_step after_late_close Reconnect) = [CLOSED; CONNECTING; CONNECTING]
  ∧ live_sockets (board_step after_late_close Reconnect) = 2%nat.
Proof. vm_compute. repeat split. Qed.

(** * Further properties of the hook *)

(** Splits a goal about one callback into the paths through it. *)
Ltac js_cases :=
  js_simpl;
  repeat first
    [ progress simplify_eq/=
    | match goal with
      | H : bool_decide _ = true |- _ => apply bool_decide_eq_true in H
      | H : bool_decide _ = false |- _ => apply bool_decide_eq_false in H
      | H : context [match ?x with _ => _ end] |- _ => destruct x eqn:?
      | |- context [match ?x with _ => _ end] => destruct x eqn:?
      end ].

Ltac unfold_step := unfold step, deliver.
Ltac unfold_reconnect := unfold reconnect, write, mbind, JS_bind.
Ltac unfold_timeout := unfold on_timeout, expire, read, write, mbind, JS_bind.

Section HookProperties.

Variable url : string.
Variable WebSocket_rejects : string → option Exn.
Variable onMessage_throws : nat → JSON → bool.
Variable onError_throws : nat → bool.

Local Abbreviation connect := (connect url WebSocket_rejects).
Local Abbreviation reconnect := (reconnect url WebSocket_rejects).
Local Abbreviation deliver := (deliver url WebSocket_rejects onMessage_throws onError_throws).
Local Abbreviation step := (step url WebSocket_rejects onMessage_throws onError_throws).
Local Abbreviation run := (run url WebSocket_rejects onMessage_throws onError_throws).

(** X1. [sendMessage] never throws and never touches the hook, the
    sockets or the timers.  It hands the message to the socket in
    [wsRef] when that socket is open, and to no other socket; in every
    other case (no socket, or one that is connecting, closing or
    closed) the message is dropped with a warning. *)
Theorem sendMessage_only_when_open (w : World) (m : JSON) :
  fst (sendMessage m w) = Returns ()
  ∧ hook (snd (sendMessage m w)) = hook w
  ∧ sockets (snd (sendMessage m w)) = sockets w
  ∧ timers (snd (sendMessage m w)) = timers w
  ∧ (∀ s, wsRef (hook w) = Some s → sockets w !! s = Some OPEN →
          trace (snd (sendMessage m w)) = Sent s m :: trace w)
  ∧ ((∀ s, wsRef (hook w) = Some s → sockets w !! s ≠ Some OPEN) →
     snd (sendMessage m w) = logged warn "WebSocket is not connected" w).
Proof.
  js_simpl. destruct (wsRef (hook w)) as [s|] eqn:Hs; simpl.
  - destruct (sockets w !! s) as [[]|] eqn:Hr; simpl; repeat split;
      try (intros s' [= <-] Hopen; congruence);
      try (intros Hclosed; reflexivity).
    intros Hclosed. exfalso. exact (Hclosed s eq_refl Hr).
  - repeat split; intros s' [=].
Qed.

(** X2. [cleanup] is safe to repeat and safe on a hook that never
    connected: a second [cleanup] right after the first changes
    nothing, not even the trace, and so does a [cleanup] of the hook
    as first rendered. *)
Theorem cleanup_idempotent (w : World) :
  cleanup (snd (cleanup w)) = (Returns (), snd (cleanup w))
  ∧ ∀ h e, cleanup (mount h e) = (Returns (), mount h e).
Proof.
  split; [| reflexivity].
  destruct w as [[c s t n hm he] ss ts nt tr]. js_simpl.
  destruct t as [t|], s as [s|]; reflexivity.
Qed.

(** X3. A timer that [cleanup] or [reconnect] cleared does not fire:
    the timeout of the handle that was in [reconnectTimeoutRef] finds
    the world as the call left it and leaves it so. *)
Theorem cleared_timer_never_fires (w : World) (t : nat) :
  reconnectTimeoutRef (hook w) = Some t →
  step (snd (cleanup w)) (Timeout t) = snd (cleanup w)
  ∧ step (snd (reconnect w)) (Timeout t) = snd (reconnect w).
Proof.
  intros Ht.
  assert (Hgone : ∀ w', timers w' !! t = None → step w' (Timeout t) = w').
  { intros w' Hw'. unfold_step.
    rewrite bool_decide_eq_false_2; [reflexivity |].
    rewrite Hw'. intros [? ?]; discriminate. }
  split; apply Hgone.
  - destruct w as [[c s t' n hm he] ss ts nt tr]. simpl in Ht. subst t'.
    js_simpl. destruct s as [s|]; simpl; apply lookup_delete_eq.
  - destruct w as [[c s t' n hm he] ss ts nt tr]. simpl in Ht. subst t'.
    js_cases; apply lookup_delete_eq.
Qed.

(** X4. A transport error is logged and passed to the caller's error
    handler when there is one; the reaction itself neither closes nor
    reconnects: hook, sockets and timers are as before.  The reaction
    throws exactly when the caller's handler does. *)
Theorem onerror_only_reports (w : World) (s : nat) :
  is_Some (sockets w !! s) →
  hook (step w (Error s)) = hook w
  ∧ sockets (step w (Error s)) = sockets w
  ∧ timers (step w (Error s)) = timers w
  ∧ next_timer (step w (Error s)) = next_timer w
  ∧ (errorHandlerRef (hook w) = None →
     deliver (Error s) w = (Returns (), logged error "WebSocket Error:" w))
  ∧ (∀ h, errorHandlerRef (hook w) = Some h →
          trace (step w (Error s))
          = ErrorHandlerCalled h :: Console error "WebSocket Error:" :: trace w
          ∧ fst (deliver (Error s) w)
            = if onError_throws h then Throws CallerError else Returns ()).
Proof.
  intros Hs. js_simpl. rewrite (bool_decide_eq_true_2 _ Hs). simpl.
  destruct (errorHandlerRef (hook w)) as [h|] eqn:Hh; simpl.
  - do 5 (split; [by destruct (onError_throws h) |]).
    intros h' [= <-]. by destruct (onError_throws h).
  - do 4 (split; [reflexivity |]). split; [reflexivity | intros h' [=]].
Qed.

(** X5. The retry delay is between one and ten seconds, grows with
    the attempt counter, and is ten seconds from the fifth attempt
    on. *)
Theorem backoff_bounds (n : nat) :
  1000 ≤ backoff n ≤ 10000
  ∧ backoff n ≤ backoff (S n)
  ∧ ((4 ≤ n)%nat → backoff n = 10000).
Proof.
  unfold backoff.
  assert (Hpos : 1 ≤ 2 ^ Z.of_nat n) by (apply Z.pow_le_mono_r with (b := 0); lia).
  assert (Hmono : 2 ^ Z.of_nat n ≤ 2 ^ Z.of_nat (S n))
    by (apply Z.pow_le_mono_r; lia).
  split; [lia |]. split; [lia |].
  intros Hn.
  assert (Hbig : 2 ^ 4 ≤ 2 ^ Z.of_nat n) by (apply Z.pow_le_mono_r; lia).
  change (2 ^ 4) with 16 in Hbig. lia.
Qed.


Lemma well_formed_step (w : World) (e : Event) :
  well_formed w → well_formed (step w e).
Proof.
  destruct w as [[c s t n hm he] ss ts nt tr].
  intros (Hws & Hts & Href & Hnt). simpl in *.
  destruct e as [ | | | m | h h' | s0 | s0 f | s0 | s0 code | t0];
    js_cases; unfold well_formed; simpl;
    (split; [| split; [| split]]); try assumption; try lia;
    try (intros ? [=]; subst); try (intros ? Hin);
    rewrite ?length_app, ?length_insert, ?length_alter; simpl;
    repeat match goal with
      | H : is_Some (delete _ _ !! _) |- _ =>
          apply lookup_delete_is_Some in H as [? H]
      | H : is_Some (<[_ := _]> _ !! _) |- _ =>
          apply lookup_insert_is_Some in H as [<- | [? H]]
      | H : is_Some (ts !! _) |- _ => apply Hts in H
      | H : Some _ = Some _ |- _ => injection H as <-
      end;
    try match goal with
      | |- (_ < length ss)%nat => by apply Hws
      | |- (_ < length ss + 1)%nat =>
          first [lia | by (etrans; [by apply Hws | lia])]
      end;
    try (specialize (Href _ eq_refl)); try lia;
    try (by apply Hws); try (by apply Href).
Qed.

Lemma run_cons (e : Event) (es : list Event) (w : World) :
  run (e :: es) w = run es (step w e).
Proof. reflexivity. Qed.

(** X7. Along every run from the first render the refs never dangle:
    [wsRef] holds a socket that was constructed, every pending timer
    and the handle in [reconnectTimeoutRef] were given out by
    [setTimeout], and every handle is positive (so truthy). *)
Theorem refs_never_dangle (es : list Event) (h : nat) (e : option nat) :
  well_formed (run es (mount h e)).
Proof.
  assert (Hrun : ∀ es w, well_formed w → well_formed (run es w)).
  { clear es. induction es as [| e' es IH]; intros w Hw; [exact Hw |].
    rewrite run_cons. apply IH, well_formed_step, Hw. }
  apply Hrun. unfold well_formed, mount. simpl.
  split; [intros s [=] |]. split; [| split; [intros t [=] | lia]].
  intros t [? Ht]. rewrite lookup_empty in Ht. discriminate.
Qed.

Lemma up_alter (ss : list ReadyState) (s' : nat) :
  (∃ s, ss !! s = Some OPEN ∨ ss !! s = Some CLOSING) →
  ∃ s, alter closing s' ss !! s = Some OPEN ∨ alter closing s' ss !! s = Some CLOSING.
Proof.
  intros [s Hs]. exists s. destruct (decide (s' = s)) as [-> | Hne].
  - rewrite list_lookup_alter_eq. destruct Hs as [-> | ->]; simpl; auto.
  - rewrite list_lookup_alter_ne by done. exact Hs.
Qed.

Lemma up_app (ss l : list ReadyState) :
  (∃ s, ss !! s = Some OPEN ∨ ss !! s = Some CLOSING) →
  ∃ s, (ss ++ l) !! s = Some OPEN ∨ (ss ++ l) !! s = Some CLOSING.
Proof.
  intros [s Hs]. exists s.
  rewrite lookup_app_l by (destruct Hs as [Hs | Hs]; eapply lookup_lt_Some, Hs).
  exact Hs.
Qed.

Lemma connected_step (w : World) (e : Event) :
  (isConnected (hook w) = true → some_socket_up w) →
  isConnected (hook (step w e)) = true → some_socket_up (step w e).
Proof.
  destruct w as [[c s t n hm he] ss ts nt tr]. unfold some_socket_up. simpl.
  intros Hinv.
  destruct e as [ | | | m | h h' | s0 | s0 f | s0 | s0 code | t0];
    js_cases; intros Hc; try discriminate;
    try (specialize (Hinv Hc));
    try (by apply up_app, up_alter); try (by apply up_app);
    try (by apply up_alter); try assumption.
  exists s0. left. apply list_lookup_insert_eq.
  match goal with H : is_Some _ |- _ => destruct H as [? H] end.
  eapply lookup_lt_Some. eassumption.
Qed.

(** X8. Along every run from the first render, [isConnected] is true
    only while some socket of the hook is open or closing: the flag
    never claims a connection when every socket is connecting or
    closed. *)
Theorem connected_flag_has_socket (es : list Event) (h : nat) (e : option nat) :
  isConnected (hook (run es (mount h e))) = true →
  some_socket_up (run es (mount h e)).
Proof.
  assert (Hrun : ∀ es w, (isConnected (hook w) = true → some_socket_up w) →
                         isConnected (hook (run es w)) = true →
                         some_socket_up (run es w)).
  { clear es. induction es as [| e' es IH]; intros w Hw; [exact Hw |].
    rewrite run_cons. apply IH, connected_step, Hw. }
  apply Hrun. simpl. discriminate.
Qed.

Lemma exhausted_step (w : World) (e : Event) :
  (maxReconnectAttempts ≤ reconnectAttemptsRef (hook w))%nat →
  resets w e = false →
  constructions (trace (step w e)) = constructions (trace w).
Proof.
  unfold maxReconnectAttempts, constructions. intros Hcap Hq.
  destruct e as [ | | | m | h h' | s0 | s0 f | s0 | s0 code | t0];
    simpl in Hq; try discriminate; js_cases;
    unfold maxReconnectAttempts in *;
    first [ reflexivity | lia | contradiction ].
Qed.

(** X9. A hook that used up its attempts stays inert: with the counter
    at five or more, no run of events constructs a socket unless it
    contains an open event or a call of [reconnect]; the counter stays
    at five or more throughout.  A call of [reconnect] sets the counter
    to zero and constructs a socket at once. *)
Theorem exhausted_until_reset (w : World) (es : list Event) :
  (maxReconnectAttempts ≤ reconnectAttemptsRef (hook w))%nat →
  no_reset url WebSocket_rejects onMessage_throws onError_throws w es = true →
  constructions (trace (run es w)) = constructions (trace w)
  ∧ (maxReconnectAttempts ≤ reconnectAttemptsRef (hook (run es w)))%nat
  ∧ (WebSocket_rejects url = None →
     constructions (trace (snd (reconnect w)))
     = constructions (trace w) ++ [length (sockets w)]
     ∧ reconnectAttemptsRef (hook (snd (reconnect w))) = 0%nat).
Proof.
  intros Hcap Hq. split; [| split].
  - revert w Hcap Hq. induction es as [| e es IH]; intros w Hcap Hq; [reflexivity |].
    simpl in Hq. apply andb_true_iff in Hq as [He Hes]. apply negb_true_iff in He.
    rewrite run_cons, IH.
    + exact (exhausted_step w e Hcap He).
    + rewrite (quiet_step_counts url WebSocket_rejects onMessage_throws
                 onError_throws w e He). lia.
    + exact Hes.
  - rewrite (quiet_run_counts url WebSocket_rejects onMessage_throws
               onError_throws es w Hq). lia.
  - intros Hok.
    destruct (reconnect_effects url WebSocket_rejects w Hok)
      as (_ & _ & _ & _ & Hzero & _ & _ & _ & _ & Hk).
    split; assumption.
Qed.

(** X10. [cleanup] closes the socket but leaves its reactions in
    place.  When the close event of that socket then arrives with a
    code other than 1000, a retry timer is armed as for any abnormal
    closure, and its firing constructs a new socket and puts it in
    [wsRef], although [cleanup] was the last call of the caller. *)
Theorem close_after_cleanup_reconnects (w : World) (s : nat) (code : Z) :
  WebSocket_rejects url = None →
  wsRef (hook w) = Some s →
  is_Some (sockets w !! s) →
  code ≠ 1000 →
  (S (reconnectAttemptsRef (hook w)) < maxReconnectAttempts)%nat →
  wsRef (hook (run [Cleanup; Close s code; Timeout (next_timer w)] w))
  = Some (length (sockets w))
  ∧ sockets (run [Cleanup; Close s code; Timeout (next_timer w)] w) !! length (sockets w)
    = Some CONNECTING
  ∧ constructions (trace (run [Cleanup; Close s code; Timeout (next_timer w)] w))
    = constructions (trace w) ++ [length (sockets w)].
Proof.
  intros Hok Hws Hs Hcode Hcap.
  rewrite run_cons.
  set (w1 := step w Cleanup).
  assert (Hw1 : next_timer w1 = next_timer w
                ∧ length (sockets w1) = length (sockets w)
                ∧ reconnectAttemptsRef (hook w1) = reconnectAttemptsRef (hook w)
                ∧ constructions (trace w1) = constructions (trace w)
                ∧ is_Some (sockets w1 !! s)).
  { subst w1. destruct w as [[c s' t n hm he] ss ts nt tr]. simpl in *. subst s'.
    unfold constructions. js_simpl.
    destruct t as [t|]; simpl; rewrite length_alter, list_lookup_alter_eq;
      (repeat split; try reflexivity); destruct Hs as [r ->]; simpl; eauto. }
  destruct Hw1 as (Hnt & Hlen & Hatt & Hk & Hs1).
  rewrite <- Hnt.
  destruct (abnormal_round url WebSocket_rejects onMessage_throws onError_throws
              w1 s code Hok Hs1 Hcode) as (_ & _ & _ & _ & Hrest).
  rewrite Hatt, (bool_decide_eq_true_2 _ Hcap) in Hrest.
  destruct Hrest as (Hws' & Hss' & Hk').
  fold run in Hws', Hss', Hk'. rewrite Hlen in *. rewrite Hk in Hk'.
  split; [exact Hws' |]. split; [| exact Hk'].
  rewrite Hss'. rewrite lookup_app_r by (rewrite length_insert; lia).
  rewrite length_insert, Hlen, Nat.sub_diag. reflexivity.
Qed.

(** *** One live socket *)

Lemma closing_not_live (r : ReadyState) : live (closing r) = false.
Proof. by destruct r. Qed.

Lemma owned_unreferenced_dead (w : World) (i : nat) (r : ReadyState) :
  owned w → wsRef (hook w) ≠ Some i → sockets w !! i = Some r → live r = false.
Proof.
  intros Hown Hne Hi. destruct (live r) eqn:Hr; [| reflexivity].
  destruct Hne. exact (Hown i r Hi Hr).
Qed.

Lemma cleanup_sockets (w : World) :
  wsRef (hook (snd (cleanup w))) = None
  ∧ sockets (snd (cleanup w))
    = from_option (λ s, alter closing s (sockets w)) (sockets w) (wsRef (hook w)).
Proof.
  destruct w as [[c s t n hm he] ss ts nt tr]. js_simpl.
  destruct t as [t|], s as [s|]; split; reflexivity.
Qed.

Lemma owned_cleanup (w : World) : owned w → owned (snd (cleanup w)).
Proof.
  intros Hown i r Hi Hr. exfalso.
  destruct (cleanup_sockets w) as (Href & Hss).
  rewrite Hss in Hi.
  destruct (wsRef (hook w)) as [s|] eqn:Hws; simpl in Hi.
  - destruct (decide (s = i)) as [-> | Hne].
    + rewrite list_lookup_alter_eq in Hi.
      destruct (sockets w !! i) as [r0|]; simplify_eq/=.
      by rewrite closing_not_live in Hr.
    + rewrite list_lookup_alter_ne in Hi by done.
      specialize (Hown i r Hi Hr). congruence.
  - specialize (Hown i r Hi Hr). congruence.
Qed.

Lemma owned_ext (w w' : World) :
  sockets w' = sockets w → wsRef (hook w') = wsRef (hook w) → owned w → owned w'.
Proof. unfold owned. intros -> ->. auto. Qed.

Lemma owned_connect (w : World) : owned w → owned (snd (connect w)).
Proof.
  intros Hown. js_simpl.
  destruct (bool_decide _ || bool_decide _) eqn:Hguard; [exact Hown |].
  apply orb_false_iff in Hguard as [Hopen Hconn].
  apply bool_decide_eq_false in Hopen, Hconn.
  case_bool_decide; simpl; [by apply (owned_ext w) |].
  destruct (WebSocket_rejects url); simpl; [by apply (owned_ext w) |].
  intros i r Hi Hr. simpl in *. f_equal.
  destruct (decide (i < length (sockets w))%nat) as [Hlt | Hge].
  - rewrite lookup_app_l in Hi by exact Hlt.
    pose proof (Hown i r Hi Hr) as Hws. rewrite Hws in Hopen, Hconn. simpl in *.
    rewrite Hi in Hopen, Hconn. destruct r; simpl in Hr; congruence.
  - apply lookup_lt_Some in Hi. rewrite length_app in Hi. simpl in Hi. lia.
Qed.

Lemma cleanup_returns (w : World) : fst (cleanup w) = Returns ().
Proof.
  destruct w as [[c s t n hm he] ss ts nt tr]. js_simpl.
  destruct t as [t|], s as [s|]; reflexivity.
Qed.

Lemma reconnect_unfold (w : World) :
  snd (reconnect w)
  = snd (connect (with_hook (set_reconnectAttemptsRef 0) (snd (cleanup w)))).
Proof.
  pose proof (cleanup_returns w) as Hret. unfold_reconnect.
  destruct (cleanup w) as [[[]|] w']; [reflexivity | discriminate].
Qed.

Lemma owned_step (w : World) (e : Event) :
  owned w → deliverable w e = true → stale w e = false → owned (step w e).
Proof.
  intros Hown Hdel Hstale.
  destruct e as [ | | | m | h h' | s0 | s0 f | s0 | s0 code | t0].
  - apply owned_connect, Hown.
  - apply owned_cleanup, Hown.
  - unfold_step. rewrite reconnect_unfold. apply owned_connect.
    eapply owned_ext; [| | apply owned_cleanup, Hown]; reflexivity.
  - eapply owned_ext; [| | exact Hown]; by js_cases.
  - eapply owned_ext; [| | exact Hown]; by js_cases.
  - simpl in Hdel. apply bool_decide_eq_true in Hdel.
    pose proof (Hown s0 CONNECTING Hdel eq_refl) as Hws.
    unfold_step. rewrite bool_decide_eq_true_2 by eauto.
    intros i r Hi Hr. js_simpl. rewrite Hws. f_equal.
    destruct (decide (s0 = i)) as [-> | Hne]; [reflexivity |].
    rewrite list_lookup_insert_ne in Hi by done.
    pose proof (Hown i r Hi Hr). congruence.
  - eapply owned_ext; [| | exact Hown]; by js_cases.
  - eapply owned_ext; [| | exact Hown]; by js_cases.
  - simpl in Hdel, Hstale. apply andb_true_iff in Hdel as [Hex _].
    apply bool_decide_eq_true in Hex.
    unfold_step. rewrite (bool_decide_eq_true_2 _ Hex).
    assert (Hdead : ∀ i r, <[s0 := CLOSED]> (sockets w) !! i = Some r → live r = false).
    { intros i r Hi. destruct (decide (s0 = i)) as [-> | Hne].
      - rewrite list_lookup_insert_eq in Hi
          by (destruct Hex as [? Hex]; eapply lookup_lt_Some, Hex).
        by simplify_eq.
      - rewrite list_lookup_insert_ne in Hi by done.
        destruct (live r) eqn:Hr; [| reflexivity].
        pose proof (Hown i r Hi Hr) as Hws. rewrite Hws in Hstale.
        rewrite Hi in Hstale. simpl in Hstale. rewrite Hr in Hstale.
        rewrite bool_decide_eq_true_2 in Hstale by done. discriminate. }
    intros i r Hi Hr. exfalso.
    assert (Hi' : <[s0 := CLOSED]> (sockets w) !! i = Some r)
      by (revert Hi; js_cases; auto).
    rewrite (Hdead i r Hi') in Hr. discriminate.
  - simpl in Hdel. unfold_step. rewrite Hdel. unfold_timeout.
    apply owned_connect. eapply owned_ext; [| | exact Hown]; reflexivity.
Qed.

Lemma filter_at_most_one {A : Type} (P : A → Prop) `{!∀ x, Decision (P x)}
    (l : list A) :
  (∀ i j x y, l !! i = Some x → l !! j = Some y → P x → P y → i = j) →
  (length (filter P l) ≤ 1)%nat.
Proof.
  induction l as [| a l IH]; intros Huniq; [simpl; lia |].
  destruct (decide (P a)) as [Ha | Ha].
  - rewrite filter_cons_True by exact Ha.
    rewrite (filter_none P l); [simpl; lia |].
    apply Forall_lookup. intros j y Hj Hy.
    pose proof (Huniq 0%nat (S j) a y eq_refl Hj Ha Hy). discriminate.
  - rewrite filter_cons_False by exact Ha. apply IH.
    intros i j x y Hi Hj Hx Hy.
    pose proof (Huniq (S i) (S j) x y Hi Hj Hx Hy). lia.
Qed.

Lemma owned_one_live (w : World) : owned w → (live_sockets w ≤ 1)%nat.
Proof.
  intros Hown. apply filter_at_most_one.
  intros i j x y Hi Hj Hx Hy.
  pose proof (Hown i x Hi Hx). pose proof (Hown j y Hj Hy). congruence.
Qed.

(** X12. The hook holds one connection at a time as long as close
    events arrive in order.  Along every run from the first render that
    the transport can produce and in which no close event belongs to a
    socket other than the one in [wsRef] while that one is connecting
    or open, every live socket is the one in [wsRef], so at most one
    socket is connecting or open. *)
Theorem single_connection_when_orderly (es : list Event) (h : nat) (e : option nat) :
  orderly url WebSocket_rejects onMessage_throws onError_throws (mount h e) es = true →
  owned (run es (mount h e)) ∧ (live_sockets (run es (mount h e)) ≤ 1)%nat.
Proof.
  assert (Hrun : ∀ es w, owned w →
            orderly url WebSocket_rejects onMessage_throws onError_throws w es = true →
            owned (run es w)).
  { clear es. induction es as [| e' es IH]; intros w Hw Hes; [exact Hw |].
    simpl in Hes. apply andb_true_iff in Hes as [Hhead Hes].
    apply andb_true_iff in Hhead as [Hdel Hst]. apply negb_true_iff in Hst.
    rewrite run_cons. apply IH; [| exact Hes]. by apply owned_step. }
  intros Hes.
  assert (Hown : owned (run es (mount h e))).
  { apply Hrun; [| exact Hes]. intros i r Hi. discriminate. }
  split; [exact Hown | by apply owned_one_live].
Qed.

(** X11. Nothing the hook does throws, except the error reaction when
    the caller's error handler throws.  In particular an exception of
    the caller's message handler does not leave [onmessage]: it is
    caught by the same [try] as a parse failure and logged with the
    same line. *)
Theorem only_the_error_handler_throws (w : World) (e : Event) :
  (∀ x, fst (deliver e w) = Throws x →
        x = CallerError
        ∧ ∃ s h, e = Error s ∧ errorHandlerRef (hook w) = Some h
                 ∧ onError_throws h = true)
  ∧ ∀ s f v, e = Message s f → is_Some (sockets w !! s) →
             Json.parse (to_string f) = Some v →
             onMessage_throws (messageHandlerRef (hook w)) v = true →
             deliver e w
             = (Returns (),
                logged error "Failed to parse message:"
                  (mkWorld (hook w) (sockets w) (timers w) (next_timer w)
                     (MessageHandlerCalled (messageHandlerRef (hook w)) v :: trace w))).
Proof.
  split.
  - intros x.
    destruct e as [ | | | m | h h' | s0 | s0 f | s0 | s0 code | t0];
      try (js_cases; discriminate).
    js_cases; intros [= <-]; eauto 10.
  - intros s f v -> Hs Hv Hthrow. js_simpl.
    rewrite (bool_decide_eq_true_2 _ Hs), Hv. simpl. by rewrite Hthrow.
Qed.

End HookProperties.

Lemma cleared_timer_never_fires_witness :
  reconnectTimeoutRef (hook armed) = Some 1%nat
  ∧ timers armed !! 1%nat = Some 1000
  ∧ board_step (snd (cleanup armed)) (Timeout 1) = snd (cleanup armed).
Proof.
  split; [reflexivity |]. split; [reflexivity |].
  exact (proj1 (cleared_timer_never_fires board_url accepts onMessage_returns
                  onError_returns armed 1 eq_refl)).
Defined.

Lemma onerror_only_reports_witness :
  is_Some (sockets connected_with_onError !! 0%nat)
  ∧ trace (board_step connected_with_onError (Error 0))
    = ErrorHandlerCalled 9 :: Console error "WebSocket Error:"
        :: trace connected_with_onError.
Proof.
  assert (Hs : is_Some (sockets connected_with_onError !! 0%nat))
    by (exists OPEN; reflexivity).
  split; [exact Hs |].
  destruct (onerror_only_reports board_url accepts onMessage_returns onError_returns
              connected_with_onError 0 Hs) as (_ & _ & _ & _ & _ & Hcall).
  exact (proj1 (Hcall 9%nat eq_refl)).
Defined.


Lemma connected_flag_has_socket_witness :
  isConnected (hook (board_run [Connect; Open 0] (mount 7 None))) = true
  ∧ some_socket_up (board_run [Connect; Open 0] (mount 7 None)).
Proof.
  split; [reflexivity |].
  exact (connected_flag_has_socket board_url accepts onMessage_returns onError_returns
           [Connect; Open 0] 7 None eq_refl).
Defined.

Lemma exhausted_until_reset_witness :
  reconnectAttemptsRef (hook exhausted) = 5%nat
  ∧ constructions (trace (board_run [Connect; Timeout 5; SendMessage JNull; Connect]
                            exhausted))
    = constructions (trace exhausted)
  ∧ constructions (trace (snd (reconnect board_url accepts exhausted)))
    = constructions (trace exhausted) ++ [5%nat].
Proof.
  split; [reflexivity |].
  destruct (exhausted_until_reset board_url accepts onMessage_returns onError_returns
              exhausted [Connect; Timeout 5; SendMessage JNull; Connect])
    as (Hinert & _ & Hrevive).
  - unfold maxReconnectAttempts. vm_compute. lia.
  - vm_compute. reflexivity.
  - split; [exact Hinert |]. exact (proj1 (Hrevive eq_refl)).
Defined.

Lemma close_after_cleanup_reconnects_witness :
  wsRef (hook connected) = Some 0%nat
  ∧ wsRef (hook (board_run [Cleanup; Close 0 1006; Timeout 1] connected)) = Some 1%nat.
Proof.
  split; [reflexivity |].
  assert (Hs : is_Some (sockets connected !! 0%nat)) by (exists OPEN; reflexivity).
  assert (Hcode : 1006 ≠ 1000) by discriminate.
  assert (Hcap : (S (reconnectAttemptsRef (hook connected)) < maxReconnectAttempts)%nat)
    by (unfold maxReconnectAttempts; simpl; lia).
  exact (proj1 (close_after_cleanup_reconnects board_url accepts onMessage_returns
                  onError_returns connected 0 1006 eq_refl eq_refl Hs Hcode Hcap)).
Defined.

Lemma single_connection_when_orderly_witness :
  orderly board_url accepts onMessage_returns onError_returns (mount 7 None)
    [Connect; Open 0; Close 0 1006; Timeout 1; Open 1] = true
  ∧ (live_sockets (board_run [Connect; Open 0; Close 0 1006; Timeout 1; Open 1]
                     (mount 7 None)) ≤ 1)%nat.
Proof.
  assert (Hes : orderly board_url accepts onMessage_returns onError_returns (mount 7 None)
                  [Connect; Open 0; Close 0 1006; Timeout 1; Open 1] = true)
    by (vm_compute; reflexivity).
  split; [exact Hes |].
  exact (proj2 (single_connection_when_orderly board_url accepts onMessage_returns
                  onError_returns _ 7 None Hes)).
Defined.

(** * Properties of the dashboard *)

Module DashboardProofs.
Import Dashboard.

Lemma Math_max_upper (first : Z) (rest : list Z) :
  first ≤ Math_max first rest ∧ ∀ i, i ∈ rest → i ≤ Math_max first rest.
Proof.
  unfold Math_max. induction rest as [| a rest [IHf IHr]]; simpl.
  - split; [lia |]. intros i Hi. by apply elem_of_nil in Hi.
  - split; [lia |]. intros i [-> | Hi]%elem_of_cons; [lia |].
    specialize (IHr i Hi). lia.
Qed.

Lemma Math_max_attained (first : Z) (rest : list Z) :
  Math_max first rest ∈ first :: rest.
Proof.
  unfold Math_max. induction rest as [| a rest IH]; simpl.
  - apply list_elem_of_here.
  - destruct (Z.max_spec a (foldr Z.max first rest)) as [[_ ->] | [_ ->]].
    + apply elem_of_cons in IH as [-> | IH].
      * apply list_elem_of_here.
      * by do 2 apply list_elem_of_further.
    + apply list_elem_of_further, list_elem_of_here.
Qed.


(** X13. [findLastId] is zero for an empty list and otherwise the
    greatest id of the list: it is one of the ids and no id exceeds
    it. *)
Theorem findLastId_greatest (ids : list Z) :
  findLastId [] = 0
  ∧ (∀ i, i ∈ ids → i ≤ findLastId ids)
  ∧ (ids ≠ [] → findLastId ids ∈ ids).
Proof.
  split; [reflexivity |]. destruct ids as [| first rest]; simpl.
  - split; [| done]. intros i Hi. by apply elem_of_nil in Hi.
  - destruct (Math_max_upper first rest) as [Hf Hr]. split.
    + intros i [-> | Hi]%elem_of_cons; auto.
    + intros _. apply Math_max_attained.
Qed.




(** *** Moving an item *)

Lemma without_absent (dragged : Item) (l : list Item) :
  item_id dragged ∉ (item_id <$> l) → without dragged l = l.
Proof.
  unfold without. induction l as [| a l IH]; intros Hnot; [reflexivity |].
  rewrite fmap_cons, not_elem_of_cons in Hnot. destruct Hnot as [Hne Hnot].
  rewrite filter_cons_True by congruence. by rewrite IH.
Qed.

Lemma without_present (dragged : Item) (l : list Item) :
  NoDup (item_id <$> l) → dragged ∈ l → dragged :: without dragged l ≡ₚ l.
Proof.
  induction l as [| a l IH]; intros Hnodup Hin; [by apply elem_of_nil in Hin |].
  rewrite fmap_cons in Hnodup. apply NoDup_cons in Hnodup as [Ha Hnodup].
  apply elem_of_cons in Hin as [-> | Hin].
  - unfold without. rewrite filter_cons_False by (intros Hne; by apply Hne).
    fold (without a l). by rewrite without_absent.
  - assert (item_id a ≠ item_id dragged).
    { intros Heq. apply Ha. rewrite Heq. by apply list_elem_of_fmap_2. }
    unfold without. rewrite filter_cons_True by done. fold (without dragged l).
    rewrite Permutation_swap. by rewrite IH.
Qed.

Lemma without_gone (dragged : Item) (l : list Item) :
  item_id dragged ∉ (item_id <$> without dragged l).
Proof.
  intros (item & Hid & Hitem)%list_elem_of_fmap.
  apply list_elem_of_filter in Hitem as [Hne _]. congruence.
Qed.

Lemma remove_from_source_ids (source : option Z) (dragged : Item) (l : list Section) :
  section_id <$> remove_from_source source dragged l = section_id <$> l.
Proof.
  unfold remove_from_source. rewrite <- list_fmap_compose.
  apply list_fmap_ext. intros i section _. simpl. by case_bool_decide.
Qed.

Lemma add_to_target_ids (target : Z) (dragged : Item) (l : list Section) :
  section_id <$> add_to_target target dragged l = section_id <$> l.
Proof.
  unfold add_to_target. rewrite <- list_fmap_compose.
  apply list_fmap_ext. intros i section _. simpl.
  case_bool_decide; [| reflexivity]. by destruct (negb _).
Qed.

Lemma remove_from_source_cons (source : option Z) (dragged : Item)
    (a : Section) (l : list Section) :
  remove_from_source source dragged (a :: l)
  = (if bool_decide (Some (section_id a) = source) then
       mkSection (section_id a) (section_title a) (without dragged (section_items a))
     else a) :: remove_from_source source dragged l.
Proof. reflexivity. Qed.

Lemma add_to_target_cons (target : Z) (dragged : Item)
    (a : Section) (l : list Section) :
  add_to_target target dragged (a :: l)
  = (if bool_decide (section_id a = target) then
       if negb (existsb (λ item, bool_decide (item_id item = item_id dragged))
                        (section_items a))
       then mkSection (section_id a) (section_title a) (section_items a ++ [dragged])
       else a
     else a) :: add_to_target target dragged l.
Proof. reflexivity. Qed.

Lemma remove_from_source_absent (source : Z) (dragged : Item) (l : list Section) :
  source ∉ (section_id <$> l) → remove_from_source (Some source) dragged l = l.
Proof.
  induction l as [| a l IH]; intros Hnot; [reflexivity |].
  rewrite fmap_cons, not_elem_of_cons in Hnot. destruct Hnot as [Hne Hnot].
  rewrite remove_from_source_cons, bool_decide_eq_false_2 by congruence.
  by rewrite IH.
Qed.

Lemma add_to_target_absent (target : Z) (dragged : Item) (l : list Section) :
  target ∉ (section_id <$> l) → add_to_target target dragged l = l.
Proof.
  induction l as [| a l IH]; intros Hnot; [reflexivity |].
  rewrite fmap_cons, not_elem_of_cons in Hnot. destruct Hnot as [Hne Hnot].
  rewrite add_to_target_cons, bool_decide_eq_false_2 by congruence.
  by rewrite IH.
Qed.

Lemma itemExists_false (dragged : Item) (l : list Item) :
  item_id dragged ∉ (item_id <$> l) →
  existsb (λ item, bool_decide (item_id item = item_id dragged)) l = false.
Proof.
  induction l as [| a l IH]; intros Hnot; [reflexivity |].
  rewrite fmap_cons, not_elem_of_cons in Hnot. destruct Hnot as [Hne Hnot].
  simpl. rewrite bool_decide_eq_false_2 by congruence. by apply IH.
Qed.

(** Taking the dragged item out of the section it is in. *)
Lemma remove_from_source_conserves (dragged : Item) (section : Section)
    (l : list Section) :
  NoDup (item_id <$> (l ≫= section_items)) →
  NoDup (section_id <$> l) →
  section ∈ l →
  dragged ∈ section_items section →
  dragged :: (remove_from_source (Some (section_id section)) dragged l ≫= section_items)
  ≡ₚ l ≫= section_items.
Proof.
  induction l as [| a l IH]; intros Hitems Hsecs Hsec Hdrag;
    [by apply elem_of_nil in Hsec |].
  rewrite fmap_cons in Hsecs. apply NoDup_cons in Hsecs as [Ha Hsecs].
  rewrite bind_cons, fmap_app in Hitems.
  apply NoDup_app in Hitems as (Hhead & _ & Htail).
  rewrite remove_from_source_cons, !bind_cons.
  apply elem_of_cons in Hsec as [-> | Hsec].
  - rewrite bool_decide_eq_true_2 by reflexivity. simpl.
    rewrite remove_from_source_absent by exact Ha.
    rewrite app_comm_cons. by rewrite without_present.
  - rewrite bool_decide_eq_false_2.
    2: { intros [= Heq]. apply Ha. rewrite Heq. by apply list_elem_of_fmap_2. }
    rewrite Permutation_middle. by rewrite IH.
Qed.

(** Putting the dragged item into the target section when its id is in
    no section. *)
Lemma add_to_target_conserves (target : Z) (dragged : Item) (l : list Section) :
  NoDup (section_id <$> l) →
  target ∈ (section_id <$> l) →
  item_id dragged ∉ (item_id <$> (l ≫= section_items)) →
  add_to_target target dragged l ≫= section_items
  ≡ₚ dragged :: (l ≫= section_items).
Proof.
  induction l as [| a l IH]; intros Hsecs Htarget Hnew;
    [by apply elem_of_nil in Htarget |].
  rewrite fmap_cons in Hsecs. apply NoDup_cons in Hsecs as [Ha Hsecs].
  rewrite bind_cons, fmap_app, elem_of_app in Hnew.
  rewrite add_to_target_cons, !bind_cons.
  destruct (decide (section_id a = target)) as [Heq | Hne].
  - rewrite bool_decide_eq_true_2 by exact Heq.
    rewrite itemExists_false by tauto. simpl.
    rewrite add_to_target_absent by (by rewrite <- Heq).
    rewrite <- (assoc_L app). simpl. by rewrite <- Permutation_middle.
  - rewrite bool_decide_eq_false_2 by exact Hne.
    rewrite fmap_cons in Htarget. apply elem_of_cons in Htarget as [-> | Htarget];
      [done |].
    rewrite IH by tauto. by rewrite Permutation_middle.
Qed.

Lemma add_to_target_holds (target : Z) (dragged : Item) (l : list Section) :
  target ∈ (section_id <$> l) →
  item_id dragged ∉ (item_id <$> (l ≫= section_items)) →
  ∃ section, section ∈ add_to_target target dragged l
             ∧ section_id section = target
             ∧ last (section_items section) = Some dragged.
Proof.
  intros (section & -> & Hsec)%list_elem_of_fmap Hnew.
  exists (mkSection (section_id section) (section_title section)
                    (section_items section ++ [dragged])).
  split; [| split; [reflexivity | apply last_snoc]].
  unfold add_to_target. apply list_elem_of_fmap. exists section.
  split; [| exact Hsec].
  rewrite bool_decide_eq_true_2 by reflexivity.
  rewrite itemExists_false; [reflexivity |].
  intros Hin. apply Hnew. rewrite list_elem_of_fmap in Hin.
  destruct Hin as (item & Hid & Hitem). rewrite Hid.
  apply list_elem_of_fmap_2, list_elem_of_bind. eauto.
Qed.

Lemma NoDup_ids_split (st : State) :
  NoDup (item_id <$> allItems st) →
  NoDup (item_id <$> items st)
  ∧ NoDup (item_id <$> (sections st ≫= section_items))
  ∧ ∀ i, i ∈ (item_id <$> items st) → i ∉ (item_id <$> (sections st ≫= section_items)).
Proof.
  unfold allItems. rewrite fmap_app. intros (? & ? & ?)%NoDup_app. auto.
Qed.

(** Dropping a recorded drag on an existing section, with unique
    ids. *)
Lemma drop_on_section_conserves (target : Z) (dragged : Item) (st : State) :
  isAdmin st = true →
  drag_recorded dragged st →
  unique_ids st →
  target ∈ (section_id <$> sections st) →
  allItems (fst (handleDropOnSection target st)) ≡ₚ allItems st
  ∧ (∃ section, section ∈ sections (fst (handleDropOnSection target st))
                ∧ section_id section = target
                ∧ last (section_items section) = Some dragged)
  ∧ section_id <$> sections (fst (handleDropOnSection target st))
    = section_id <$> sections st
  ∧ unique_ids (fst (handleDropOnSection target st)).
Proof.
  intros Hadmin (Hdrag & Hsource) (Hitems & Hsecs) Htarget.
  destruct (NoDup_ids_split st Hitems) as (Hfree & Hheld & Hapart).
  unfold handleDropOnSection. rewrite Hdrag, Hadmin. simpl.
  assert (Hgoal : ∀ newSections newItems,
            section_id <$> newSections = section_id <$> sections st →
            item_id dragged ∉ (item_id <$> (newSections ≫= section_items)) →
            dragged :: (newItems ++ (newSections ≫= section_items)) ≡ₚ allItems st →
            let st' := drag_over (add_to_target target dragged newSections) newItems st in
            allItems st' ≡ₚ allItems st
            ∧ (∃ section, section ∈ sections st' ∧ section_id section = target
                          ∧ last (section_items section) = Some dragged)
            ∧ section_id <$> sections st' = section_id <$> sections st
            ∧ unique_ids st').
  { intros newSections newItems Hids Hnew Hperm st'.
    assert (Hall : allItems st' ≡ₚ allItems st).
    { unfold allItems at 1. simpl.
      rewrite add_to_target_conserves by (rewrite ?Hids; assumption).
      by rewrite <- Permutation_middle. }
    split; [exact Hall |]. split.
    { apply add_to_target_holds; [by rewrite Hids | exact Hnew]. }
    split; [simpl; by rewrite add_to_target_ids |].
    split; [by rewrite Hall | simpl; by rewrite add_to_target_ids, Hids]. }
  destruct Hsource as [[-> Hin] | (-> & section & Hsec & -> & Hin)]; simpl.
  - apply Hgoal; [reflexivity | |].
    + apply Hapart. by apply list_elem_of_fmap_2.
    + unfold allItems. rewrite app_comm_cons. by rewrite without_present.
  - pose proof (remove_from_source_conserves dragged section (sections st)
                  Hheld Hsecs Hsec Hin) as Hperm.
    apply Hgoal; [apply remove_from_source_ids | |].
    + assert (Hnodup : NoDup (item_id <$>
                (dragged :: (remove_from_source (Some (section_id section)) dragged
                               (sections st) ≫= section_items))))
        by (by rewrite Hperm).
      rewrite fmap_cons in Hnodup. by apply NoDup_cons in Hnodup as [? _].
    + unfold allItems. rewrite Permutation_middle. by rewrite Hperm.
Qed.

(** X16. Dropping on a section moves the item and nothing else.  For
    an admin, with unique ids on the board, a drag that
    [handleDragStart] recorded and a target section that exists,
    [handleDropOnSection] leaves the board with the same items as
    before (none lost, none doubled), the dragged item last in the
    target section, the same sections in the same order, and ids still
    unique. *)
Theorem handleDropOnSection_moves (target : Z) (dragged : Item) (st : State) :
  isAdmin st = true →
  drag_recorded dragged st →
  unique_ids st →
  target ∈ (section_id <$> sections st) →
  allItems (fst (handleDropOnSection target st)) ≡ₚ allItems st
  ∧ (∃ section, section ∈ sections (fst (handleDropOnSection target st))
                ∧ section_id section = target
                ∧ last (section_items section) = Some dragged)
  ∧ section_id <$> sections (fst (handleDropOnSection target st))
    = section_id <$> sections st
  ∧ unique_ids (fst (handleDropOnSection target st)).
Proof.
  intros Hadmin Hrec Huniq Htarget.
  by apply drop_on_section_conserves.
Qed.

(** X17. Dropping on the free list moves the item back.  For an
    admin, with unique ids and a recorded drag out of a section,
    [handleDropOnItemsList] leaves the board with the same items as
    before, the dragged item last in the free list and in no section;
    for any other drag source it does nothing. *)
Theorem handleDropOnItemsList_moves (dragged : Item) (st : State) :
  isAdmin st = true →
  drag_recorded dragged st →
  unique_ids st →
  (dragSource st = Some from_section →
   allItems (fst (handleDropOnItemsList st)) ≡ₚ allItems st
   ∧ items (fst (handleDropOnItemsList st)) = items st ++ [dragged]
   ∧ (item_id dragged
      ∉ item_id <$> (sections (fst (handleDropOnItemsList st)) ≫= section_items))
   ∧ unique_ids (fst (handleDropOnItemsList st)))
  ∧ (dragSource st ≠ Some from_section → handleDropOnItemsList st = (st, [])).
Proof.
  intros Hadmin (Hdrag & Hsource) (Hitems & Hsecs).
  destruct (NoDup_ids_split st Hitems) as (Hfree & Hheld & Hapart).
  unfold handleDropOnItemsList. rewrite Hdrag, Hadmin. split.
  - intros Hfrom. rewrite Hfrom. simpl.
    destruct Hsource as [[Hno _] | (_ & section & Hsec & -> & Hin)]; [congruence |].
    pose proof (remove_from_source_conserves dragged section (sections st)
                  Hheld Hsecs Hsec Hin) as Hperm.
    assert (Hall : (items st ++ [dragged])
                   ++ (remove_from_source (Some (section_id section)) dragged
                         (sections st) ≫= section_items) ≡ₚ allItems st).
    { unfold allItems. rewrite <- (assoc_L app). simpl. by rewrite Hperm. }
    split; [exact Hall |]. split; [reflexivity |]. split.
    + assert (Hnodup : NoDup (item_id <$>
                (dragged :: (remove_from_source (Some (section_id section)) dragged
                               (sections st) ≫= section_items))))
        by (by rewrite Hperm).
      rewrite fmap_cons in Hnodup. by apply NoDup_cons in Hnodup as [? _].
    + split; [unfold allItems; simpl; by rewrite Hall |].
      simpl. by rewrite remove_from_source_ids.
  - intros Hfrom. destruct (dragSource st) as [[]|]; try reflexivity. congruence.
Qed.

(** X18. A viewer who is not an admin cannot edit: [handleDragStart],
    [handleDropOnSection] and [handleDropOnItemsList] leave the state
    as it is and send nothing, whatever they are called with. *)
Theorem viewer_cannot_edit (st : State) :
  isAdmin st = false →
  (∀ x y item source sectionId,
     handleDragStart x y item source sectionId st = (st, []))
  ∧ (∀ target, handleDropOnSection target st = (st, []))
  ∧ handleDropOnItemsList st = (st, []).
Proof.
  intros Hviewer. split; [| split].
  - intros. unfold handleDragStart. by rewrite Hviewer.
  - intros. unfold handleDropOnSection. rewrite Hviewer.
    by destruct (draggedItem st).
  - unfold handleDropOnItemsList. rewrite Hviewer.
    by destruct (draggedItem st), (dragSource st) as [[]|].
Qed.

(** X19. Every change of the board is broadcast as it was made: each
    of the four handlers that write [sections] or [items] either does
    nothing or sends one [DROP_UPDATE] with the sections and items it
    has just set.  A client that receives a [DROP_UPDATE] takes over
    exactly those sections and items and shows no drag indicator, so
    sender and receiver hold the same board. *)
Theorem board_changes_are_broadcast (st : State) :
  (∀ target, broadcast st (handleDropOnSection target st))
  ∧ broadcast st (handleDropOnItemsList st)
  ∧ (∀ name, broadcast st (handleAddLeader name st))
  ∧ (∀ name, broadcast st (handleAddMember name st))
  ∧ ∀ sections' items' receiver,
      sections (handleWebSocketMessage (DROP_UPDATE sections' items') receiver) = sections'
      ∧ items (handleWebSocketMessage (DROP_UPDATE sections' items') receiver) = items'
      ∧ indicator (handleWebSocketMessage (DROP_UPDATE sections' items') receiver) = None.
Proof.
  unfold broadcast. split; [| split; [| split; [| split]]].
  - intros target. unfold handleDropOnSection.
    destruct (draggedItem st); [| by left].
    destruct (negb (isAdmin st)); [by left | right].
    by destruct (dragSource st) as [[]|].
  - unfold handleDropOnItemsList.
    destruct (draggedItem st), (dragSource st) as [[]|]; try by left.
    destruct (negb (isAdmin st)); [by left | by right].
  - intros name. by right.
  - intros name. by right.
  - intros. repeat split.
Qed.

(** X20. The drag indicator follows the drag on other clients.  When
    an admin starts a drag, [handleDragStart] sends one [DRAG_UPDATE];
    a client that receives it shows the name of the dragged item at the
    pointer position of the sender.  [handleDragEnd] sends [DRAG_END]
    and hides the indicator of the sender; a client that receives
    [DRAG_END] hides its own.  Neither message changes the board of the
    receiver. *)
Theorem indicator_follows_drag
    (x y : Z) (item : Item) (source : DragSource) (sectionId : option Z)
    (st receiver : State) :
  isAdmin st = true →
  snd (handleDragStart x y item source sectionId st)
  = [DRAG_UPDATE item (mkPosition x y)]
  ∧ indicator (handleWebSocketMessage (DRAG_UPDATE item (mkPosition x y)) receiver)
    = Some (item_name item, mkPosition x y)
  ∧ snd (handleDragEnd (fst (handleDragStart x y item source sectionId st))) = [DRAG_END]
  ∧ indicator (fst (handleDragEnd (fst (handleDragStart x y item source sectionId st))))
    = None
  ∧ indicator (handleWebSocketMessage DRAG_END
                 (handleWebSocketMessage (DRAG_UPDATE item (mkPosition x y)) receiver))
    = None
  ∧ allItems (handleWebSocketMessage DRAG_END
                (handleWebSocketMessage (DRAG_UPDATE item (mkPosition x y)) receiver))
    = allItems receiver.
Proof.
  intros Hadmin. unfold handleDragStart. rewrite Hadmin. repeat split.
Qed.

Lemma NoDup_without (dragged : Item) (l : list Item) :
  NoDup (item_id <$> l) → NoDup (item_id <$> without dragged l).
Proof.
  unfold without. induction l as [| a l IH]; intros Hnodup; [constructor |].
  rewrite fmap_cons in Hnodup. apply NoDup_cons in Hnodup as [Ha Hnodup].
  destruct (decide (item_id a ≠ item_id dragged)).
  - rewrite filter_cons_True by done. rewrite fmap_cons.
    apply NoDup_cons. split; [| by apply IH].
    intros (item & Hid & Hitem)%list_elem_of_fmap.
    apply list_elem_of_filter in Hitem as [_ Hitem].
    apply Ha. rewrite Hid. by apply list_elem_of_fmap_2.
  - rewrite filter_cons_False by done. by apply IH.
Qed.

Lemma itemExists_spec (dragged : Item) (l : list Item) :
  existsb (λ item, bool_decide (item_id item = item_id dragged)) l = false →
  item_id dragged ∉ (item_id <$> l).
Proof.
  induction l as [| a l IH]; simpl; intros Hex; [by intros ?%elem_of_nil |].
  apply orb_false_iff in Hex as [Ha Hex]. apply bool_decide_eq_false in Ha.
  rewrite not_elem_of_cons. split; [congruence | by apply IH].
Qed.

(** X21. A drop never puts two items of one id into a section.  When
    no section holds an id twice, [handleDropOnSection] leaves it so,
    whoever calls it and whatever the drag state is: the item is added
    only to a section that has no item of its id. *)
Theorem handleDropOnSection_no_double (target : Z) (st : State) :
  (∀ section, section ∈ sections st → NoDup (item_id <$> section_items section)) →
  ∀ section, section ∈ sections (fst (handleDropOnSection target st)) →
             NoDup (item_id <$> section_items section).
Proof.
  intros Hbefore. unfold handleDropOnSection.
  destruct (draggedItem st) as [dragged|]; [| exact Hbefore].
  destruct (negb (isAdmin st)); [exact Hbefore |].
  assert (Hremove : ∀ source section,
            section ∈ remove_from_source source dragged (sections st) →
            NoDup (item_id <$> section_items section)).
  { intros source section (s & -> & Hs)%list_elem_of_fmap.
    case_bool_decide; simpl; [apply NoDup_without |]; by apply Hbefore. }
  assert (Hadd : ∀ l, (∀ section, section ∈ l →
                         NoDup (item_id <$> section_items section)) →
                      ∀ section, section ∈ add_to_target target dragged l →
                         NoDup (item_id <$> section_items section)).
  { intros l Hl section (s & -> & Hs)%list_elem_of_fmap.
    case_bool_decide; [| by apply Hl].
    destruct (existsb _ _) eqn:Hex; simpl; [by apply Hl |].
    rewrite fmap_app. simpl. rewrite <- Permutation_cons_append.
    apply NoDup_cons. split; [by apply itemExists_spec | by apply Hl]. }
  destruct (dragSource st) as [[]|]; simpl; apply Hadd; eauto.
Qed.

Lemma drags_keep (moves : list (Z * Z)) (st : State) :
  sections (drags moves st) = sections st
  ∧ items (drags moves st) = items st
  ∧ draggedItem (drags moves st) = draggedItem st
  ∧ dragSource (drags moves st) = dragSource st
  ∧ sourceSectionId (drags moves st) = sourceSectionId st
  ∧ isAdmin (drags moves st) = isAdmin st.
Proof.
  unfold drags. revert st. induction moves as [| [x y] moves IH]; intros st;
    [by repeat split |].
  simpl. destruct (IH (fst (handleDrag x y st))) as (-> & -> & -> & -> & -> & ->).
  unfold handleDrag. by destruct (bool_decide _ && bool_decide _).
Qed.

(** X22. A whole drag and drop keeps the board intact.  An admin
    starts dragging an item that the render offers, the pointer moves
    any number of times, and the item is dropped on an existing
    section: with unique ids, the board afterwards holds the same items
    as before the drag, the dragged item is last in the target section,
    and the drag state is cleared, so the indicator is hidden. *)
Theorem drag_and_drop_conserves
    (x y : Z) (item : Item) (source : DragSource) (sectionId : option Z)
    (moves : list (Z * Z)) (target : Z) (st : State) :
  isAdmin st = true →
  unique_ids st →
  draggable st item source sectionId →
  target ∈ (section_id <$> sections st) →
  let dropped :=
    fst (handleDropOnSection target
           (drags moves (fst (handleDragStart x y item source sectionId st)))) in
  allItems dropped ≡ₚ allItems st
  ∧ (∃ section, section ∈ sections dropped ∧ section_id section = target
                ∧ last (section_items section) = Some item)
  ∧ unique_ids dropped
  ∧ draggedItem dropped = None
  ∧ dragSource dropped = None
  ∧ indicator dropped = None.
Proof.
  intros Hadmin Huniq Hdrag Htarget.
  set (started := fst (handleDragStart x y item source sectionId st)).
  set (moved := drags moves started).
  destruct (drags_keep moves started) as (Hss & His & Hd & Hsrc & Hsid & Had).
  fold moved in Hss, His, Hd, Hsrc, Hsid, Had.
  assert (Hstarted : sections started = sections st ∧ items started = items st
                     ∧ draggedItem started = Some item
                     ∧ dragSource started = Some source
                     ∧ sourceSectionId started = sectionId
                     ∧ isAdmin started = true).
  { subst started. unfold handleDragStart. rewrite Hadmin. by repeat split. }
  destruct Hstarted as (Hss0 & His0 & Hd0 & Hsrc0 & Hsid0 & Had0).
  assert (Hall : allItems moved = allItems st).
  { unfold allItems. by rewrite Hss, His, Hss0, His0. }
  assert (Hrec : drag_recorded item moved).
  { split; [by rewrite Hd |]. rewrite Hsrc, Hsrc0, Hsid, Hsid0, Hss, His, Hss0, His0.
    destruct Hdrag as [(-> & _ & Hin) | (-> & section & ? & -> & ?)];
      [left | right]; eauto. }
  assert (Huniq' : unique_ids moved).
  { destruct Huniq as [Hi Hs]. split; [by rewrite Hall | by rewrite Hss, Hss0]. }
  destruct (drop_on_section_conserves target item moved) as (Hperm & Hheld & _ & Hu);
    [by rewrite Had | exact Hrec | exact Huniq' | by rewrite Hss, Hss0 |].
  cbv zeta. fold started. fold moved.
  split; [by rewrite Hperm, Hall |]. split; [exact Hheld |]. split; [exact Hu |].
  unfold handleDropOnSection. rewrite Hd, Hd0, Had, Had0. simpl.
  by destruct (dragSource moved) as [[]|].
Qed.

(** ** The properties on the sample board *)

Lemma board_unique_ids : unique_ids board.
Proof. split; apply (bool_decide_unpack _); vm_compute; exact I. Qed.

Lemma dragging_lee_recorded : drag_recorded (mkItem 2 "lee") dragging_lee.
Proof.
  split; [reflexivity |]. left. split; [reflexivity |]. apply list_elem_of_here.
Qed.

Lemma dragging_kim_recorded : drag_recorded (mkItem 1 "kim") dragging_kim.
Proof.
  split; [reflexivity |]. right. split; [reflexivity |].
  exists (mkSection 1 "A" [mkItem 1 "kim"]).
  split; [apply list_elem_of_here |]. split; [reflexivity | apply list_elem_of_here].
Qed.

Lemma handleDropOnSection_moves_witness :
  isAdmin dragging_lee = true
  ∧ allItems (fst (handleDropOnSection 2 dragging_lee)) ≡ₚ allItems dragging_lee.
Proof.
  split; [reflexivity |].
  assert (Htarget : (2 : Z) ∈ section_id <$> sections dragging_lee)
    by (apply (bool_decide_unpack _); vm_compute; exact I).
  exact (proj1 (handleDropOnSection_moves 2 (mkItem 2 "lee") dragging_lee
                  eq_refl dragging_lee_recorded board_unique_ids Htarget)).
Defined.

Lemma handleDropOnItemsList_moves_witness :
  dragSource dragging_kim = Some from_section
  ∧ items (fst (handleDropOnItemsList dragging_kim))
    = items dragging_kim ++ [mkItem 1 "kim"].
Proof.
  split; [reflexivity |].
  destruct (handleDropOnItemsList_moves (mkItem 1 "kim") dragging_kim
              eq_refl dragging_kim_recorded board_unique_ids) as (Hmove & _).
  exact (proj1 (proj2 (Hmove eq_refl))).
Defined.

Lemma viewer_cannot_edit_witness :
  isAdmin viewer_board = false
  ∧ handleDropOnSection 1 viewer_board = (viewer_board, []).
Proof.
  split; [reflexivity |].
  exact (proj1 (proj2 (viewer_cannot_edit viewer_board eq_refl)) 1).
Defined.

Lemma indicator_follows_drag_witness :
  isAdmin board = true
  ∧ indicator (handleWebSocketMessage
                 (DRAG_UPDATE (mkItem 2 "lee") (mkPosition 10 20)) viewer_board)
    = Some ("lee"%string, mkPosition 10 20).
Proof.
  split; [reflexivity |].
  exact (proj1 (proj2 (indicator_follows_drag 10 20 (mkItem 2 "lee") from_items None
                         board viewer_board eq_refl))).
Defined.

Lemma handleDropOnSection_no_double_witness :
  NoDup (item_id <$> section_items (mkSection 2 "B" [mkItem 2 "lee"])).
Proof.
  assert (Hbefore : ∀ section, section ∈ sections dragging_lee →
                               NoDup (item_id <$> section_items section)).
  { intros section Hin. simpl in Hin. rewrite !elem_of_cons in Hin.
    destruct Hin as [-> | [-> | Hin]]; [| | by apply elem_of_nil in Hin];
      apply (bool_decide_unpack _); vm_compute; exact I. }
  apply (handleDropOnSection_no_double 2 dragging_lee Hbefore).
  apply list_elem_of_further, list_elem_of_here.
Defined.

Lemma drag_and_drop_conserves_witness :
  isAdmin board = true
  ∧ allItems (fst (handleDropOnSection 2
                     (drags [(11, 21); (12, 22)]
                        (fst (handleDragStart 10 20 (mkItem 1 "kim") from_section
                                (Some 1) board)))))
    ≡ₚ allItems board.
Proof.
  split; [reflexivity |].
  assert (Hdrag : draggable board (mkItem 1 "kim") from_section (Some 1)).
  { right. split; [reflexivity |]. exists (mkSection 1 "A" [mkItem 1 "kim"]).
    split; [apply list_elem_of_here |]. split; [reflexivity | apply list_elem_of_here]. }
  assert (Htarget : (2 : Z) ∈ section_id <$> sections board)
    by (apply (bool_decide_unpack _); vm_compute; exact I).
  exact (proj1 (drag_and_drop_conserves 10 20 (mkItem 1 "kim") from_section (Some 1)
                  [(11, 21); (12, 22)] 2 board eq_refl board_unique_ids Hdrag Htarget)).
Defined.

End DashboardProofs.

(** * Properties of the add-member form *)

Module AddMemberModalProofs.
Import AddMemberModal.

Lemma trimStart_blank (s : list N) :
  trimStart s = [] ↔ Forall (λ c, is_space c = true) s.
Proof.
  induction s as [| c s IH]; simpl; [by split |].
  destruct (is_space c) eqn:Hc.
  - rewrite IH. split; [by constructor | by inversion 1].
  - split; [discriminate |]. inversion 1; congruence.
Qed.

Lemma trimStart_head (s : list N) (c : N) :
  head (trimStart s) = Some c → is_space c = false.
Proof.
  induction s as [| a s IH]; simpl; [discriminate |].
  destruct (is_space a) eqn:Ha; [exact IH |]. simpl. congruence.
Qed.

Lemma trimStart_suffix (s : list N) : ∃ spaces, s = spaces ++ trimStart s
                                       ∧ Forall (λ c, is_space c = true) spaces.
Proof.
  induction s as [| a s (spaces & Hs & Hsp)]; simpl; [by exists [] |].
  destruct (is_space a) eqn:Ha.
  - exists (a :: spaces). split; [simpl; congruence | by constructor].
  - by exists [].
Qed.

Lemma trimStart_clean (s : list N) :
  (∀ c, head s = Some c → is_space c = false) → trimStart s = s.
Proof.
  destruct s as [| a s]; [reflexivity |]. simpl. intros Hhead.
  by rewrite (Hhead a eq_refl).
Qed.

Lemma trimStart_last (s : list N) :
  trimStart s ≠ [] → last (trimStart s) = last s.
Proof.
  destruct (trimStart_suffix s) as (spaces & Hs & _). intros Hne.
  rewrite Hs at 2. destruct (trimStart s) as [| a t] eqn:Ht; [done |].
  rewrite last_app_cons. reflexivity.
Qed.

Lemma trim_head (s : list N) (c : N) :
  head (trim s) = Some c → is_space c = false.
Proof.
  unfold trim, trimEnd. rewrite head_reverse. intros Hlast.
  destruct (decide (trimStart (reverse (trimStart s)) = [])) as [Hnil | Hne].
  - rewrite Hnil in Hlast. discriminate.
  - rewrite trimStart_last, last_reverse in Hlast by exact Hne.
    by apply (trimStart_head s).
Qed.

Lemma trim_last (s : list N) (c : N) :
  last (trim s) = Some c → is_space c = false.
Proof.
  unfold trim, trimEnd. rewrite last_reverse. apply trimStart_head.
Qed.

Lemma trim_blank (s : list N) :
  trim s = [] ↔ Forall (λ c, is_space c = true) s.
Proof.
  split.
  - unfold trim, trimEnd. intros Hnil.
    apply (f_equal reverse) in Hnil. rewrite reverse_involutive in Hnil.
    change (reverse []) with (@nil N) in Hnil.
    apply trimStart_blank in Hnil. rewrite Forall_reverse in Hnil.
    apply trimStart_blank.
    destruct (trimStart s) as [| a t] eqn:Ht; [reflexivity |].
    apply Forall_cons in Hnil as [Ha _].
    assert (is_space a = false) by (apply (trimStart_head s); by rewrite Ht).
    congruence.
  - intros Hblank. apply trimStart_blank in Hblank.
    unfold trim. by rewrite Hblank.
Qed.

Lemma trim_idempotent (s : list N) : trim (trim s) = trim s.
Proof.
  unfold trim at 1. rewrite trimStart_clean by apply trim_head.
  unfold trimEnd. rewrite trimStart_clean, reverse_involutive; [reflexivity |].
  intros c. rewrite head_reverse. apply trim_last.
Qed.

(** X23. The form never submits a blank or padded name.  When the
    input holds only white space (or nothing), [handleSubmit] calls
    neither [onSubmit] nor [onClose] and keeps the input.  Otherwise it
    calls [onSubmit] once with the trimmed name, empties the input and
    then calls [onClose]; the name it submits is not empty, neither
    starts nor ends with white space, and trimming it again changes
    nothing. *)
Theorem handleSubmit_submits_clean_names (name : list N) :
  (Forall (λ c, is_space c = true) name →
   handleSubmit name = (name, [preventDefault]))
  ∧ (¬ Forall (λ c, is_space c = true) name →
     handleSubmit name = ([], [preventDefault; onSubmit (trim name); onClose]))
  ∧ ∀ submitted, onSubmit submitted ∈ snd (handleSubmit name) →
      submitted ≠ []
      ∧ (∀ c, head submitted = Some c → is_space c = false)
      ∧ (∀ c, last submitted = Some c → is_space c = false)
      ∧ trim submitted = submitted.
Proof.
  unfold handleSubmit. split; [| split].
  - intros Hblank. apply trim_blank in Hblank. by rewrite Hblank.
  - intros Hname. destruct (trim name) eqn:Ht; [| reflexivity].
    destruct Hname. by apply trim_blank.
  - intros submitted Hin.
    destruct (trim name) as [| a t] eqn:Ht; simpl in Hin.
    + apply list_elem_of_singleton in Hin. discriminate.
    + rewrite !elem_of_cons in Hin.
      destruct Hin as [Hin | [Hin | [Hin | Hin]]]; try discriminate;
        [| by apply elem_of_nil in Hin].
      injection Hin as ->. rewrite <- Ht.
      split; [by rewrite Ht |]. split; [apply trim_head |].
      split; [apply trim_last | apply trim_idempotent].
Qed.

End AddMemberModalProofs.

(** * [JSON.parse] after [JSON.stringify] *)

Module StringifyProofs.
Import Stringify.

Lemma follows_not_digit (c : ascii) (t : list ascii) :
  follows (c :: t) →
  Json.is_digit c = false ∧ c ≠ "." ∧ c ≠ "e" ∧ c ≠ "E" ∧ c ≠ "+" ∧ c ≠ "-".
Proof.
  intros [Hnil | (t' & [Heq | [Heq | Heq]])]; [discriminate | | |];
    injection Heq as -> _; repeat split; discriminate.
Qed.


(** *** Strings *)

Lemma hex_digit_hex (k : nat) : (k < 16)%nat → Json.hex_digit (hex k) = Some k.
Proof.
  intros Hk. do 16 (destruct k as [| k]; [reflexivity |]). lia.
Qed.



(** *** Numbers *)












(** *** Values *)






Lemma join_cons_length (t : list ascii) (ts : list (list ascii)) :
  (length t ≤ length (join (t :: ts)))%nat.
Proof.
  destruct ts; simpl; [lia |]. rewrite length_app. lia.
Qed.










End StringifyProofs.

(** * Messages on the wire *)

Module WireProofs.
Import Dashboard Stringify Wire.













End WireProofs.
